(** * Qola: a programmatic SQL statement assembler

    Shallow embedding of [qola.py] (Python 2) and proofs of properties of
    its assembly engine: the table descriptor, the fragment accumulators
    ([Selector], [Joiner], [Clauser], [Orderer], [Limiter], [Setter]), the
    bound-value wrapper [Expr], the query builder [Q] and the translator
    [Database.assemble] with its four builders.

    Two models are given.  The first is purely functional: every
    accumulator is a record of lists and every method is a function.  The
    second ([Module Store]) keeps Python's lists and the Setter's dict as
    mutable objects in a store addressed by references, so that aliasing and
    in-place [extend]/[append] are visible; it is related to the first by a
    simulation lemma. *)

From Stdlib Require Import String Ascii List ZArith Lia Bool Arith.
From Stdlib Require Import DecimalString Permutation.
Import ListNotations.
Open Scope string_scope.
Open Scope list_scope.
Set Warnings "-register-all".

(** ** Python string primitives used by the source *)

Module PyStr.

(** [sep.join(parts)] *)
Definition join (sep : string) (parts : list string) : string :=
  String.concat sep parts.

(** Characters removed by [str.strip()] without argument: space, tab,
    newline, carriage return, vertical tab, form feed. *)
Definition isspace (c : ascii) : bool :=
  let n := nat_of_ascii c in
  Nat.eqb n 32 || (Nat.leb 9 n && Nat.leb n 13).

Fixpoint lstrip (s : string) : string :=
  match s with
  | EmptyString => EmptyString
  | String c s' => if isspace c then lstrip s' else s
  end.

(** Removal of trailing white space: a character is dropped when it is a
    space character and everything after it has been dropped. *)
Fixpoint rstrip (s : string) : string :=
  match s with
  | EmptyString => EmptyString
  | String c s' =>
      match rstrip s' with
      | EmptyString => if isspace c then EmptyString else String c EmptyString
      | r => String c r
      end
  end.

Definition strip (s : string) : string := rstrip (lstrip s).

Fixpoint spaces (n : nat) : string :=
  match n with
  | O => EmptyString
  | S n' => String " " (spaces n')
  end.

(** [s.rjust(width)]: [s] padded on the left with spaces up to [width]
    characters; [s] itself when it is already that long. *)
Definition rjust (width : nat) (s : string) : string :=
  spaces (width - String.length s) ++ s.

(** [str(n)] for an integer. *)
Definition str_int (n : Z) : string :=
  NilZero.string_of_int (Z.to_int n).

(** Truth value of a string in a condition: non-empty. *)
Definition truthy (s : string) : bool :=
  match s with EmptyString => false | _ => true end.

End PyStr.

(** ** Values *)

(** Python values that reach the assembler as parameters or as the value
    handed to [Setter.add].  [PExpr value params] is an instance of the
    class [Expr]. *)
Inductive pyval : Type :=
| PNone
| PStr (s : string)
| PInt (n : Z)
| PExpr (value : string) (params : list pyval).

(** An argument that the caller may give as one object or as a Python list
    of them: [Many l] is the case [type(val) is list]. *)
Inductive arg (A : Type) : Type :=
| One (a : A)
| Many (l : list A).
Arguments One {A} a.
Arguments Many {A} l.

(** [to_list(val)] *)
Definition to_list {A : Type} (val : arg A) : list A :=
  match val with
  | Many l => l
  | One a => [a]
  end.

(** ** Table *)

Record Table : Type := mkTable {
  name : string;
  pk : string;
  alias : string
}.

(** [Table.identifier] *)
Definition identifier (self : Table) : string :=
  let alias :=
    if PyStr.truthy (alias self)
    then PyStr.rjust 1 (PyStr.strip (alias self))
    else "" in
  name self ++ alias.

(** A subclass of [Table]: the class attributes [name] and [pk]. *)
Record TableClass : Type := mkTableClass {
  cls_name : string;
  cls_pk : string
}.

(** [tbl(alias)]: [Table.__init__] on an instance of the subclass. *)
Definition Table_init (tbl : TableClass) (alias : string) : Table :=
  mkTable (cls_name tbl) (cls_pk tbl) alias.

(** ** Fragment accumulators *)

Module Selector.
Record t : Type := mk { cols : list string }.

Definition init : t := mk [].

(** [Selector.__call__] *)
Definition call (self : t) : list string :=
  match cols self with
  | [] => ["*"]
  | _ => cols self
  end.

(** [Selector.add]; [alias = None] is given as [None]. *)
Definition add (self : t) (cols0 : arg string) (alias : option string) : t :=
  let cols1 := to_list cols0 in
  let cols2 :=
    match alias with
    | Some a => if PyStr.truthy a
                then map (fun k => (a ++ "." ++ k)%string) cols1
                else cols1
    | None => cols1
    end in
  mk (cols self ++ cols2).
End Selector.

Module Joiner.
Record t : Type := mk { joins : list string }.

Definition init : t := mk [].

Definition call (self : t) : list string := joins self.

(** [Joiner.add] *)
Definition add (self : t) (tbl : Table) (join_on : string) (outer : bool) : t :=
  let join_type := if outer then "OUTER" else "INNER" in
  mk (joins self ++ [join_type; "JOIN"; identifier tbl]).
End Joiner.

Module Clauser.
Record t : Type := mk { clauses : list string; params : list pyval }.

Definition init : t := mk [] [].

Definition call (self : t) : list string := clauses self.

(** [Clauser.add] *)
Definition add (self : t) (clause : string) (params0 : arg pyval)
           (is_or : bool) : t :=
  let clauses1 :=
    match clauses self with
    | [] => clauses self
    | _ => let operator := if is_or then "OR" else "AND" in
           clauses self ++ [operator]
    end in
  mk (clauses1 ++ [clause]) (params self ++ to_list params0).
End Clauser.

Module Orderer.
Record t : Type := mk { orders : list string }.

Definition init : t := mk [].

Definition call (self : t) : list string := orders self.

Definition add (self : t) (order : arg string) : t :=
  mk (orders self ++ to_list order).
End Orderer.

Module Limiter.
Record t : Type := mk { limits : list string }.

Definition init : t := mk [].

Definition call (self : t) : list string := limits self.

(** [Limiter.add]: the attribute is assigned, not extended. *)
Definition add (self : t) (limits0 : arg Z) : t :=
  mk (map PyStr.str_int (to_list limits0)).
End Limiter.

Module Expr.
Record t : Type := mk { value : string; params : list pyval }.
End Expr.

(** A [dict] with string keys, as the list of its items in iteration
    order.  Assigning to a key that is present replaces its value in place;
    a new key goes to the end: iteration follows the first insertion of
    each key, which is the order the data model of the specification gives
    to the Setter.  The general statements below only need that the items
    are iterated in one fixed order, the same for the columns, the
    placeholders and the parameters. *)
Module Dict.
Section WithValue.
Context {V : Type}.

Definition t : Type := list (string * V).

Definition empty : t := [].

Fixpoint set (d : t) (k : string) (v : V) : t :=
  match d with
  | [] => [(k, v)]
  | (k', v') :: d' =>
      if String.eqb k' k then (k, v) :: d' else (k', v') :: set d' k v
  end.

Definition items (d : t) : list (string * V) := d.

Definition keys (d : t) : list string := map fst d.
End WithValue.
Arguments t V : clear implicits.
End Dict.

Module Setter.
Record t : Type := mk { items : Dict.t Expr.t }.

Definition init : t := mk Dict.empty.

Definition call (self : t) : Dict.t Expr.t := items self.

(** [Setter.add]: [isinstance(value, Expr)] is the constructor [PExpr]. *)
Definition add (self : t) (key : string) (value : pyval) : t :=
  let param :=
    match value with
    | PExpr v ps => Expr.mk v ps
    | _ => Expr.mk "?" [value]
    end in
  mk (Dict.set (items self) key param).
End Setter.

(** ** The query builder *)

Module Q.
Record t : Type := mk {
  table : Table;
  selector : Selector.t;
  joiner : Joiner.t;
  clauser : Clauser.t;
  orderer : Orderer.t;
  limiter : Limiter.t;
  setter : Setter.t
}.

(** [Q.__init__]: the table class is instantiated without alias. *)
Definition init (tbl : TableClass) : t :=
  mk (Table_init tbl "") Selector.init Joiner.init Clauser.init
     Orderer.init Limiter.init Setter.init.

Definition select (self : t) (cols : arg string) (alias : option string) : t :=
  mk (table self) (Selector.add (selector self) cols alias) (joiner self)
     (clauser self) (orderer self) (limiter self) (setter self).

Definition join (self : t) (tbl : Table) (join_on : string) (outer : bool) : t :=
  mk (table self) (selector self) (Joiner.add (joiner self) tbl join_on outer)
     (clauser self) (orderer self) (limiter self) (setter self).

(** [Q.where] ([where] is reserved, hence the underscore). *)
Definition where_ (self : t) (clause : string) (params : arg pyval)
           (is_or : bool) : t :=
  mk (table self) (selector self) (joiner self)
     (Clauser.add (clauser self) clause params is_or)
     (orderer self) (limiter self) (setter self).

Definition key (self : t) (val : arg pyval) : t :=
  where_ self (pk (table self) ++ " = ?")%string val false.

Definition order (self : t) (order0 : arg string) : t :=
  mk (table self) (selector self) (joiner self) (clauser self)
     (Orderer.add (orderer self) order0) (limiter self) (setter self).

Definition limit (self : t) (limits : arg Z) : t :=
  mk (table self) (selector self) (joiner self) (clauser self)
     (orderer self) (Limiter.add (limiter self) limits) (setter self).

Definition set (self : t) (key0 : string) (value : pyval) : t :=
  mk (table self) (selector self) (joiner self) (clauser self)
     (orderer self) (limiter self) (Setter.add (setter self) key0 value).

(** The loop [for k, v in vals.items(): self.set(k, v)] that opens
    [Q.insert] and [Q.update]. *)
Definition set_all (self : t) (vals : Dict.t pyval) : t :=
  fold_left (fun q kv => set q (fst kv) (snd kv)) (Dict.items vals) self.
End Q.

(** ** The translator *)

(** Exceptions.  [AttributeError attr] is what [getattr] raises when the
    object has no attribute of that name.  [CallError attr] stands for the
    failure of calling an attribute that is not a builder with a query as
    its argument.  [UnsupportedMode mode] is the dedicated error of the
    specification; no path of the source raises it. *)
Inductive exn : Type :=
| AttributeError (attr : string)
| CallError (attr : string)
| UnsupportedMode (mode : string).

(** What an attribute of a [Database] instance is, as far as [assemble] is
    concerned: one of the four builders, or anything else (helper methods,
    connection methods, data attributes). *)
Inductive attribute (B : Type) : Type :=
| Builder (f : B)
| Other.
Arguments Builder {B} f.
Arguments Other {B}.

(** The attributes of a [Database] (or [SQLite]) instance by name: the
    methods of the class in source order, the instance attributes set by
    [__init__], and the attributes every instance has. *)
Definition Database_attributes {B : Type} (build_select build_insert
    build_update build_delete : B) : list (string * attribute B) :=
  [ ("__init__", Other); ("_connect", Other); ("_dict_factory", Other);
    ("_list_null", Other); ("_select", Other); ("_from", Other);
    ("_join", Other); ("_where", Other); ("_order", Other);
    ("_limit", Other); ("_insert", Other); ("_values", Other);
    ("_update", Other); ("_set", Other); ("_delete", Other);
    ("_build_select", Builder build_select);
    ("_build_insert", Builder build_insert);
    ("_build_update", Builder build_update);
    ("_build_delete", Builder build_delete);
    ("assemble", Other); ("close", Other); ("commit", Other);
    ("rollback", Other); ("query", Other);
    ("_dsn", Other); ("_con", Other); ("_db_driver", Other);
    ("__class__", Other); ("__dict__", Other); ("__doc__", Other);
    ("__module__", Other) ].

(** [getattr(self, name)]: [None] is the raise of [AttributeError]. *)
Fixpoint getattr {B : Type} (attrs : list (string * attribute B))
         (name0 : string) : option (attribute B) :=
  match attrs with
  | [] => None
  | (n, a) :: rest => if String.eqb n name0 then Some a else getattr rest name0
  end.

(** The mode strings that name a builder. *)
Definition recognized_modes : list string :=
  ["select"; "insert"; "update"; "delete"].

Module Database.

Definition result : Type := string * list pyval.

(** [v == ''] *)
Definition is_empty_str (v : pyval) : bool :=
  match v with
  | PStr EmptyString => true
  | _ => false
  end.

Definition _list_null (values : list pyval) : list pyval :=
  map (fun v => if is_empty_str v then PNone else v) values.

Definition _select (cols : list string) : list string :=
  ["SELECT"; PyStr.join "," cols].

Definition _from (parts : list string) (tbl : Table) : list string :=
  parts ++ ["FROM"; identifier tbl].

Definition _join (parts joins : list string) : list string :=
  match joins with
  | [] => parts
  | _ => parts ++ joins
  end.

Definition _where (parts clauses : list string) : list string :=
  match clauses with
  | [] => parts
  | _ => parts ++ ["WHERE"; PyStr.join " " clauses]
  end.

Definition _order (parts orders : list string) : list string :=
  match orders with
  | [] => parts
  | _ => parts ++ ["ORDER BY"; PyStr.join "," orders]
  end.

Definition _limit (parts limits : list string) : list string :=
  match limits with
  | [] => parts
  | _ => parts ++ ["LIMIT"; PyStr.join "," limits]
  end.

Definition _insert (tbl : Table) (cols : list string) : list string :=
  ["INSERT"; "INTO"; name tbl; ("(" ++ PyStr.join "," cols ++ ")")%string].

Definition _values (parts vals : list string) : list string :=
  parts ++ ["VALUES"; ("(" ++ PyStr.join "," vals ++ ")")%string].

Definition _update (tbl : Table) : list string :=
  ["UPDATE"; identifier tbl].

Definition _set (parts cols : list string) : list string :=
  parts ++ ["SET"; PyStr.join "," cols].

Definition _delete : list string := ["DELETE"].

Definition _build_select (qry : Q.t) : result :=
  let parts := _select (Selector.call (Q.selector qry)) in
  let parts := _from parts (Q.table qry) in
  let parts := _join parts (Joiner.call (Q.joiner qry)) in
  let parts := _where parts (Clauser.call (Q.clauser qry)) in
  let parts := _order parts (Orderer.call (Q.orderer qry)) in
  let parts := _limit parts (Limiter.call (Q.limiter qry)) in
  (PyStr.join " " parts, Clauser.params (Q.clauser qry)).

(** The loop of [_build_insert]: the locals [cols], [vals] and [params]
    after the iteration over the Setter's items. *)
Definition insert_loop (items : list (string * Expr.t))
  : list string * list string * list pyval :=
  fold_left
    (fun '(cols, vals, params) '(c, q) =>
       (cols ++ [c], vals ++ ["?"], params ++ Expr.params q))
    items ([], [], []).

Definition insert_cols (qry : Q.t) : list string :=
  fst (fst (insert_loop (Dict.items (Setter.call (Q.setter qry))))).

Definition insert_vals (qry : Q.t) : list string :=
  snd (fst (insert_loop (Dict.items (Setter.call (Q.setter qry))))).

Definition _build_insert (qry : Q.t) : result :=
  let '(cols, vals, params) :=
    insert_loop (Dict.items (Setter.call (Q.setter qry))) in
  let params := _list_null params in
  let parts := _insert (Q.table qry) cols in
  let parts := _values parts vals in
  (PyStr.join " " parts, params).

(** The loop of [_build_update]: the locals [cols] and [vals]. *)
Definition update_loop (items : list (string * Expr.t))
  : list string * list pyval :=
  fold_left
    (fun '(cols, vals) '(c, q) =>
       (cols ++ [(c ++ " = " ++ Expr.value q)%string], vals ++ Expr.params q))
    items ([], []).

Definition _build_update (qry : Q.t) : result :=
  let '(cols, vals) :=
    update_loop (Dict.items (Setter.call (Q.setter qry))) in
  let parts := _update (Q.table qry) in
  let parts := _set parts cols in
  let parts := _join parts (Joiner.call (Q.joiner qry)) in
  let parts := _where parts (Clauser.call (Q.clauser qry)) in
  let params := _list_null (Clauser.params (Q.clauser qry)) in
  (PyStr.join " " parts, vals ++ params).

Definition _build_delete (qry : Q.t) : result :=
  let parts := _delete in
  let parts := _from parts (Q.table qry) in
  let parts := _join parts (Joiner.call (Q.joiner qry)) in
  let parts := _where parts (Clauser.call (Q.clauser qry)) in
  (PyStr.join " " parts, Clauser.params (Q.clauser qry)).

Definition attributes : list (string * attribute (Q.t -> result)) :=
  Database_attributes _build_select _build_insert _build_update _build_delete.

(** [Database.assemble] *)
Definition assemble (qry : Q.t) (mode : string) : exn + result :=
  let builder := ("_build_" ++ mode)%string in
  match getattr attributes builder with
  | None => inl (AttributeError builder)
  | Some (Builder f) => inr (f qry)
  | Some Other => inl (CallError builder)
  end.

(** The dispatch the specification words: a closed set of four modes,
    and a dedicated error for every other mode string.  Not part of the
    source; it is what [assemble] is compared with. *)
Definition assemble_spec (qry : Q.t) (mode : string) : exn + result :=
  if String.eqb mode "select" then inr (_build_select qry)
  else if String.eqb mode "insert" then inr (_build_insert qry)
  else if String.eqb mode "update" then inr (_build_update qry)
  else if String.eqb mode "delete" then inr (_build_delete qry)
  else inl (UnsupportedMode mode).

End Database.

(** [Q.assemble], with the current database being a [Database]. *)
Definition Q_assemble (self : Q.t) (mode : string) : exn + Database.result :=
  Database.assemble self mode.

(** [Q.insert] up to the call of [execute]: the builder after the [set]
    calls and the statement handed to the execution gateway. *)
Definition Q_insert (self : Q.t) (vals : Dict.t pyval)
  : Q.t * (exn + Database.result) :=
  let self := Q.set_all self vals in
  (self, Q_assemble self "insert").

(** [Q.update] up to the call of [execute]. *)
Definition Q_update (self : Q.t) (vals : Dict.t pyval)
  : Q.t * (exn + Database.result) :=
  let self := Q.set_all self vals in
  (self, Q_assemble self "update").

(** [Q.delete] and [Q.fetch]/[Q.fetch_one] up to the call of [execute]. *)
Definition Q_delete (self : Q.t) : exn + Database.result :=
  Q_assemble self "delete".

Definition Q_fetch (self : Q.t) : exn + Database.result :=
  Q_assemble self "select".

(** ** The builders over a store of mutable objects

    Python lists, the Setter's dict and [Expr] instances are objects: a
    variable or an attribute holds a reference, [extend] and [append]
    change the object in place, and two references may denote the same
    object.  This module runs the four builders over an explicit store.  The
    attributes of the builder itself ([qry.selector.cols], ...) are
    references that no builder assigns to, so the builder is a record of
    references here. *)
Module Store.

Definition ref : Type := nat.

Inductive obj : Type :=
| StrList (l : list string)
| ValList (l : list pyval)
| ExprObj (value : string) (params : ref)
| DictObj (d : list (string * ref)).

Definition store : Type := list obj.

(** Computations on the store; [None] is a run that goes wrong because a
    reference does not denote an object of the expected class. *)
Definition M (A : Type) : Type := store -> option (A * store).

Definition ret {A : Type} (a : A) : M A := fun h => Some (a, h).

Definition bind {A B : Type} (c : M A) (k : A -> M B) : M B :=
  fun h => match c h with
           | Some (a, h') => k a h'
           | None => None
           end.

Definition fail {A : Type} : M A := fun _ => None.

Declare Scope store_scope.
Delimit Scope store_scope with store.
Notation "x <- c ;; k" := (bind c (fun x => k))
  (at level 61, c at next level, right associativity) : store_scope.
Notation "c ;;; k" := (bind c (fun _ => k))
  (at level 61, right associativity) : store_scope.
Local Open Scope store_scope.

(** Replacement of the object at a reference. *)
Fixpoint update (h : store) (r : ref) (o : obj) : store :=
  match h, r with
  | [], _ => []
  | _ :: h', O => o :: h'
  | o' :: h', S r' => o' :: update h' r' o
  end.

(** A list display or a comprehension: a new object. *)
Definition new (o : obj) : M ref := fun h => Some (length h, h ++ [o]).

Definition get_strs (r : ref) : M (list string) :=
  fun h => match nth_error h r with
           | Some (StrList l) => Some (l, h)
           | _ => None
           end.

Definition get_vals (r : ref) : M (list pyval) :=
  fun h => match nth_error h r with
           | Some (ValList l) => Some (l, h)
           | _ => None
           end.

Definition get_expr (r : ref) : M (string * ref) :=
  fun h => match nth_error h r with
           | Some (ExprObj v ps) => Some ((v, ps), h)
           | _ => None
           end.

(** [d.items()] *)
Definition dict_items (r : ref) : M (list (string * ref)) :=
  fun h => match nth_error h r with
           | Some (DictObj d) => Some (d, h)
           | _ => None
           end.

(** [r.extend(l)] on a list of strings, in place. *)
Definition extend_strs (r : ref) (l : list string) : M unit :=
  fun h => match nth_error h r with
           | Some (StrList l0) => Some (tt, update h r (StrList (l0 ++ l)))
           | _ => None
           end.

(** [r.extend(l)] on a list of values, in place. *)
Definition extend_vals (r : ref) (l : list pyval) : M unit :=
  fun h => match nth_error h r with
           | Some (ValList l0) => Some (tt, update h r (ValList (l0 ++ l)))
           | _ => None
           end.

(** [for x in l: body(x)] *)
Fixpoint for_each {A : Type} (l : list A) (body : A -> M unit) : M unit :=
  match l with
  | [] => ret tt
  | x :: l' => body x ;;; for_each l' body
  end.

(** The query builder: its table and the references held by its six
    accumulators. *)
Record Q : Type := mkQ {
  table : Table;
  cols : ref;
  joins : ref;
  clauses : ref;
  params : ref;
  orders : ref;
  limits : ref;
  items : ref
}.

(** The statement text and the reference of the parameter list. *)
Definition result : Type := string * ref.

(** [Selector.__call__]: the list [cols] itself, or a new list. *)
Definition Selector_call (qry : Q) : M ref :=
  l <- get_strs (cols qry) ;;
  match l with
  | [] => new (StrList ["*"])
  | _ => ret (cols qry)
  end.

(** [_list_null]: the comprehension builds a new list. *)
Definition _list_null (values : ref) : M ref :=
  l <- get_vals values ;;
  new (ValList (Database._list_null l)).

Definition _select (cols0 : ref) : M ref :=
  l <- get_strs cols0 ;;
  new (StrList ["SELECT"; PyStr.join "," l]).

Definition _from (parts : ref) (tbl : Table) : M unit :=
  extend_strs parts ["FROM"; identifier tbl].

Definition _join (parts joins0 : ref) : M unit :=
  l <- get_strs joins0 ;;
  match l with
  | [] => ret tt
  | _ => extend_strs parts l
  end.

Definition _where (parts clauses0 : ref) : M unit :=
  l <- get_strs clauses0 ;;
  match l with
  | [] => ret tt
  | _ => extend_strs parts ["WHERE"; PyStr.join " " l]
  end.

Definition _order (parts orders0 : ref) : M unit :=
  l <- get_strs orders0 ;;
  match l with
  | [] => ret tt
  | _ => extend_strs parts ["ORDER BY"; PyStr.join "," l]
  end.

Definition _limit (parts limits0 : ref) : M unit :=
  l <- get_strs limits0 ;;
  match l with
  | [] => ret tt
  | _ => extend_strs parts ["LIMIT"; PyStr.join "," l]
  end.

Definition _insert (tbl : Table) (cols0 : ref) : M ref :=
  l <- get_strs cols0 ;;
  new (StrList ["INSERT"; "INTO"; name tbl;
                ("(" ++ PyStr.join "," l ++ ")")%string]).

Definition _values (parts vals : ref) : M unit :=
  l <- get_strs vals ;;
  extend_strs parts ["VALUES"; ("(" ++ PyStr.join "," l ++ ")")%string].

Definition _update (tbl : Table) : M ref :=
  new (StrList ["UPDATE"; identifier tbl]).

Definition _set (parts cols0 : ref) : M unit :=
  l <- get_strs cols0 ;;
  extend_strs parts ["SET"; PyStr.join "," l].

Definition _delete : M ref := new (StrList ["DELETE"]).

Definition _build_select (qry : Q) : M result :=
  c <- Selector_call qry ;;
  parts <- _select c ;;
  _from parts (table qry) ;;;
  _join parts (joins qry) ;;;
  _where parts (clauses qry) ;;;
  _order parts (orders qry) ;;;
  _limit parts (limits qry) ;;;
  l <- get_strs parts ;;
  ret (PyStr.join " " l, params qry).

(** The body of the loop of [_build_insert], for the item [(c, q)]:
    [cols.append(c)], [vals.append('?')], [params.extend(q.params)]. *)
Definition insert_body (cols0 vals params0 : ref) (item : string * ref)
  : M unit :=
  let '(c, q) := item in
  extend_strs cols0 [c] ;;;
  extend_strs vals ["?"] ;;;
  e <- get_expr q ;;
  ps <- get_vals (snd e) ;;
  extend_vals params0 ps.

Definition _build_insert (qry : Q) : M result :=
  cols0 <- new (StrList []) ;;
  vals <- new (StrList []) ;;
  params0 <- new (ValList []) ;;
  its <- dict_items (items qry) ;;
  for_each its (insert_body cols0 vals params0) ;;;
  params1 <- _list_null params0 ;;
  parts <- _insert (table qry) cols0 ;;
  _values parts vals ;;;
  l <- get_strs parts ;;
  ret (PyStr.join " " l, params1).

(** The body of the loop of [_build_update]:
    [cols.append('%s = %s' % (c, q.value))], [vals.extend(q.params)]. *)
Definition update_body (cols0 vals : ref) (item : string * ref) : M unit :=
  let '(c, q) := item in
  e <- get_expr q ;;
  extend_strs cols0 [(c ++ " = " ++ fst e)%string] ;;;
  ps <- get_vals (snd e) ;;
  extend_vals vals ps.

Definition _build_update (qry : Q) : M result :=
  cols0 <- new (StrList []) ;;
  vals <- new (ValList []) ;;
  its <- dict_items (items qry) ;;
  for_each its (update_body cols0 vals) ;;;
  parts <- _update (table qry) ;;
  _set parts cols0 ;;;
  _join parts (joins qry) ;;;
  _where parts (clauses qry) ;;;
  params1 <- _list_null (params qry) ;;
  l <- get_strs parts ;;
  vs <- get_vals vals ;;
  ps <- get_vals params1 ;;
  r <- new (ValList (vs ++ ps)) ;;
  ret (PyStr.join " " l, r).

Definition _build_delete (qry : Q) : M result :=
  parts <- _delete ;;
  _from parts (table qry) ;;;
  _join parts (joins qry) ;;;
  _where parts (clauses qry) ;;;
  l <- get_strs parts ;;
  ret (PyStr.join " " l, params qry).

Definition attributes : list (string * attribute (Q -> M result)) :=
  Database_attributes _build_select _build_insert _build_update _build_delete.

(** [Database.assemble] *)
Definition assemble (qry : Q) (mode : string) : M (exn + result) :=
  let builder := ("_build_" ++ mode)%string in
  match getattr attributes builder with
  | None => ret (inl (AttributeError builder))
  | Some (Builder f) => r <- f qry ;; ret (inr r)
  | Some Other => ret (inl (CallError builder))
  end.

(** *** Reading a builder out of the store *)

Definition read_strs (h : store) (r : ref) : option (list string) :=
  match nth_error h r with
  | Some (StrList l) => Some l
  | _ => None
  end.

Definition read_vals (h : store) (r : ref) : option (list pyval) :=
  match nth_error h r with
  | Some (ValList l) => Some l
  | _ => None
  end.

Definition read_expr (h : store) (r : ref) : option Expr.t :=
  match nth_error h r with
  | Some (ExprObj v pr) =>
      match read_vals h pr with
      | Some ps => Some (Expr.mk v ps)
      | None => None
      end
  | _ => None
  end.

Fixpoint read_items (h : store) (d : list (string * ref))
  : option (list (string * Expr.t)) :=
  match d with
  | [] => Some []
  | (k, r) :: d' =>
      match read_expr h r, read_items h d' with
      | Some e, Some its => Some ((k, e) :: its)
      | _, _ => None
      end
  end.

Definition read_dict (h : store) (r : ref) : option (list (string * Expr.t)) :=
  match nth_error h r with
  | Some (DictObj d) => read_items h d
  | _ => None
  end.

(** The value of the builder [qry] in the store [h]: the contents of
    all its accumulators; [None] when some reference of the builder does
    not denote an object of the expected class. *)
Definition contents (h : store) (qry : Q) : option Q.t :=
  match read_strs h (cols qry), read_strs h (joins qry),
        read_strs h (clauses qry), read_vals h (params qry),
        read_strs h (orders qry), read_strs h (limits qry),
        read_dict h (items qry) with
  | Some c, Some j, Some cl, Some p, Some o, Some l, Some it =>
      Some (Q.mk (table qry) (Selector.mk c) (Joiner.mk j) (Clauser.mk cl p)
                 (Orderer.mk o) (Limiter.mk l) (Setter.mk it))
  | _, _, _, _, _, _, _ => None
  end.

(** Every object of [h] is still there, unchanged, in [h']. *)
Definition preserved (h h' : store) : Prop :=
  forall r o, nth_error h r = Some o -> nth_error h' r = Some o.

End Store.

(** ** Notions used in the statements *)

(** One call of [Clauser.add] (of [Q.where]). *)
Record where_call : Type := mkWhere {
  w_clause : string;
  w_params : arg pyval;
  w_is_or : bool
}.

(** A [Clauser] after a sequence of [where] calls, from the empty one. *)
Definition Clauser_after (calls : list where_call) : Clauser.t :=
  fold_left (fun c w => Clauser.add c (w_clause w) (w_params w) (w_is_or w))
            calls Clauser.init.

Definition connector (w : where_call) : string :=
  if w_is_or w then "OR" else "AND".

(** The clause list expected after the calls: the first clause, then a
    connector before each further clause. *)
Definition alternating (calls : list where_call) : list string :=
  match calls with
  | [] => []
  | w :: rest => w_clause w :: flat_map (fun w' => [connector w'; w_clause w']) rest
  end.

Definition is_connector (s : string) : bool :=
  String.eqb s "AND" || String.eqb s "OR".

Definition count_connectors (l : list string) : nat :=
  length (filter is_connector l).

(** The chained calls of the builder. *)
Inductive call : Type :=
| CallSelect (cols : arg string) (alias : option string)
| CallJoin (tbl : Table) (join_on : string) (outer : bool)
| CallKey (val : arg pyval)
| CallWhere (clause : string) (params : arg pyval) (is_or : bool)
| CallOrder (order : arg string)
| CallLimit (limits : arg Z)
| CallSet (key : string) (value : pyval).

Definition apply_call (q : Q.t) (c : call) : Q.t :=
  match c with
  | CallSelect cols alias => Q.select q cols alias
  | CallJoin tbl join_on outer => Q.join q tbl join_on outer
  | CallKey val => Q.key q val
  | CallWhere clause params is_or => Q.where_ q clause params is_or
  | CallOrder order => Q.order q order
  | CallLimit limits => Q.limit q limits
  | CallSet key value => Q.set q key value
  end.

(** The builder made by [Q(tbl)] followed by the calls. *)
Definition built (tbl : TableClass) (calls : list call) : Q.t :=
  fold_left apply_call calls (Q.init tbl).

(** The keys passed to [set], in call order, with repetitions. *)
Definition set_keys (calls : list call) : list string :=
  flat_map (fun c => match c with CallSet k _ => [k] | _ => [] end) calls.

(** The parameters bound by the Setter's entries, in iteration order. *)
Definition setter_params (items : list (string * Expr.t)) : list pyval :=
  flat_map (fun kv => Expr.params (snd kv)) items.

(** The sum of the parameter counts of the Setter's entries. *)
Definition setter_param_count (items : list (string * Expr.t)) : nat :=
  list_sum (map (fun kv => length (Expr.params (snd kv))) items).

(** A store that holds the lists of one builder: two columns, no join,
    one clause with its parameter, one order, one limit, and a Setter with
    the entry [email] bound to the empty string. *)
Definition example_store : Store.store :=
  [ Store.StrList ["id"; "name"];
    Store.StrList [];
    Store.StrList ["age > ?"];
    Store.ValList [PInt 18];
    Store.StrList ["name"];
    Store.StrList ["10"];
    Store.ExprObj "?" 7;
    Store.ValList [PStr ""];
    Store.DictObj [("email", 6)] ].

Definition example_builder : Store.Q :=
  Store.mkQ (mkTable "users" "id" "") 0 1 2 3 4 5 8.

(** An entry of the Setter that binds exactly one parameter, as every
    entry made by [Setter.add] from a value that is not an [Expr]. *)
Definition one_param (kv : string * Expr.t) : Prop :=
  length (Expr.params (snd kv)) = 1.

(** The accumulator a chained call writes to. *)
Inductive accumulator : Type :=
| ASelector | AJoiner | AClauser | AOrderer | ALimiter | ASetter.

Definition target (c : call) : accumulator :=
  match c with
  | CallSelect _ _ => ASelector
  | CallJoin _ _ _ => AJoiner
  | CallKey _ => AClauser
  | CallWhere _ _ _ => AClauser
  | CallOrder _ => AOrderer
  | CallLimit _ => ALimiter
  | CallSet _ _ => ASetter
  end.

Definition is_limit_call (c : call) : bool :=
  match c with CallLimit _ => true | _ => false end.

(** A call that writes to the Joiner or to the Clauser. *)
Definition touches_filter (c : call) : bool :=
  match target c with
  | AClauser | AJoiner => true
  | _ => false
  end.

(** A value that is not an instance of [Expr]. *)
Definition plain (v : pyval) : bool :=
  match v with PExpr _ _ => false | _ => true end.

(** A call that does not hand an [Expr] to [set]. *)
Definition plain_call (c : call) : bool :=
  match c with CallSet _ v => plain v | _ => true end.

(** An entry of the Setter as [Setter.add] makes it from a value that is
    not an [Expr]: the placeholder with that value as its parameter. *)
Definition bound_entry (kv : string * Expr.t) : Prop :=
  exists v, snd kv = Expr.mk "?" [v].

(** [d[k]]; [None] is the [KeyError]. *)
Fixpoint Dict_get {V : Type} (d : Dict.t V) (k : string) : option V :=
  match d with
  | [] => None
  | (k', v) :: d' => if String.eqb k' k then Some v else Dict_get d' k
  end.

(** [Clauser.add] on the store: the two lists of the Clauser are changed
    in place. *)
Definition Store_Clauser_add (qry : Store.Q) (clause : string)
           (params0 : arg pyval) (is_or : bool) : Store.M unit :=
  Store.bind (Store.get_strs (Store.clauses qry)) (fun l =>
  Store.bind
    match l with
    | [] => Store.ret tt
    | _ => let operator := if is_or then "OR" else "AND" in
           Store.extend_strs (Store.clauses qry) [operator]
    end (fun _ =>
  Store.bind (Store.extend_strs (Store.clauses qry) [clause]) (fun _ =>
  Store.extend_vals (Store.params qry) (to_list params0)))).

(** ** The execution gateway

    [Database.query] and the methods around it talk to a database driver
    that is not part of the source.  What the driver does at each call of
    one query is given by a record of answers: a call either returns or
    raises an exception, of which only [str(err)] matters.  The calls made
    are recorded as a list of events. *)
Module Gateway.

(** A row as the row factory returns it. *)
Definition row : Type := Dict.t pyval.

(** The loop of [_dict_factory]: [dict_row[col[0]] = row[idx]] for each
    column of [cursor.description]; [None] is the [IndexError] of
    [row[idx]]. *)
Fixpoint dict_factory_loop (description : list string) (idx : nat)
         (row0 : list pyval) (dict_row : row) : option row :=
  match description with
  | [] => Some dict_row
  | col :: rest =>
      match nth_error row0 idx with
      | None => None
      | Some v => dict_factory_loop rest (S idx) row0 (Dict.set dict_row col v)
      end
  end.

(** [Database._dict_factory]; the description is given by the names
    [col[0]] of its columns. *)
Definition _dict_factory (description : list string) (row0 : list pyval)
  : option row :=
  dict_factory_loop description 0 row0 Dict.empty.

Record answers : Type := mkAnswers {
  connect_raises : option string;
  cursor_raises : option string;
  execute_raises : option string;
  fetchall_returns : string + list row;
  fetchone_returns : string + option row;
  commit_raises : option string;
  rollback_raises : option string;
  close_raises : option string
}.

Inductive event : Type :=
| Connect (dsn : string)
| SetRowFactory
| OpenCursor
| Execute (sql : string) (params : list pyval)
| FetchAll
| FetchOne
| Commit
| Rollback
| CloseCursor
| Stderr (text : string)
| CloseConnection.

(** What [query] returns: the list of [fetchall] (or the initial empty
    list), the row of [fetchone], or the [None] of [fetchone]. *)
Inductive result : Type :=
| ResultList (rows : list row)
| ResultRow (r : row)
| ResultNone.

(** An exception: the [AttributeError] of an attribute looked up on
    [None], or an exception raised by the driver. *)
Inductive raised : Type :=
| NoneHasNoAttribute (attr : string)
| DriverError (msg : string).

(** [str(err)] *)
Definition str_of (e : raised) : string :=
  match e with
  | NoneHasNoAttribute attr =>
      ("'NoneType' object has no attribute '" ++ attr ++ "'")%string
  | DriverError msg => msg
  end.

(** A [Database] instance: [_con] and [_db_driver] are [None] ([false])
    or an object ([true]). *)
Record t : Type := mk {
  _dsn : string;
  _con : bool;
  _db_driver : bool
}.

(** [Database.__init__] *)
Definition init (dsn : string) : t := mk dsn false false.

(** [SQLite.__init__]; [import_ok] tells whether [import sqlite3]
    succeeds. *)
Definition SQLite_init (dsn : string) (import_ok : bool) : t :=
  mk dsn false import_ok.

Definition raise_or {A : Type} (raises : option string) (a : A) : raised + A :=
  match raises with
  | Some msg => inl (DriverError msg)
  | None => inr a
  end.

(** [Database._connect] *)
Definition _connect (self : t) (a : answers) : (raised + unit) * t * list event :=
  if _con self then
    (raise_or (cursor_raises a) tt, self, [OpenCursor])
  else if _db_driver self then
    match connect_raises a with
    | Some msg => (inl (DriverError msg), self, [Connect (_dsn self)])
    | None =>
        (raise_or (cursor_raises a) tt,
         mk (_dsn self) true (_db_driver self),
         [Connect (_dsn self); SetRowFactory; OpenCursor])
    end
  else (inl (NoneHasNoAttribute "connect"), self, []).

(** [Database.commit] *)
Definition commit (self : t) (a : answers) : (raised + unit) * list event :=
  if _con self then (raise_or (commit_raises a) tt, [Commit])
  else (inl (NoneHasNoAttribute "commit"), []).

(** [Database.rollback] *)
Definition rollback (self : t) (a : answers) : (raised + unit) * list event :=
  if _con self then (raise_or (rollback_raises a) tt, [Rollback])
  else (inl (NoneHasNoAttribute "rollback"), []).

(** [Database.close]: [_con] is not reset. *)
Definition close (self : t) (raises : option string)
  : (raised + unit) * t * list event :=
  if _con self then (raise_or raises tt, self, [CloseConnection])
  else (inr tt, self, []).

(** [fetch_mode == s] *)
Definition mode_is (fetch_mode : option string) (s : string) : bool :=
  match fetch_mode with
  | Some m => String.eqb m s
  | None => false
  end.

(** The body of the [try] of [query]: the exception that ends it, if
    any, the value of [result] at that point, and the calls made. *)
Definition try_body (self : t) (query0 : string) (params : list pyval)
           (fetch_mode : option string) (a : answers)
  : option raised * result * list event :=
  match execute_raises a with
  | Some msg => (Some (DriverError msg), ResultList [], [Execute query0 params])
  | None =>
      let '(err1, result1, ev1) :=
        if mode_is fetch_mode "all" then
          match fetchall_returns a with
          | inl msg => (Some (DriverError msg), ResultList [], [FetchAll])
          | inr rows => (None, ResultList rows, [FetchAll])
          end
        else (None, ResultList [], []) in
      match err1 with
      | Some e => (Some e, result1, Execute query0 params :: ev1)
      | None =>
          let '(err2, result2, ev2) :=
            if mode_is fetch_mode "one" then
              match fetchone_returns a with
              | inl msg => (Some (DriverError msg), result1, [FetchOne])
              | inr (Some r) => (None, ResultRow r, [FetchOne])
              | inr None => (None, ResultNone, [FetchOne])
              end
            else (None, result1, []) in
          match err2 with
          | Some e => (Some e, result2, Execute query0 params :: ev1 ++ ev2)
          | None =>
              match commit self a with
              | (inl e, ev3) =>
                  (Some e, result2, Execute query0 params :: ev1 ++ ev2 ++ ev3)
              | (inr _, ev3) =>
                  (None, result2, Execute query0 params :: ev1 ++ ev2 ++ ev3)
              end
          end
      end
  end.

Definition newline : string := String (ascii_of_nat 10) EmptyString.

(** [Database.query]: what it returns or raises, the instance after the
    call, and the calls made. *)
Definition query (self : t) (query0 : string) (params : list pyval)
           (fetch_mode : option string) (a : answers)
  : (raised + result) * t * list event :=
  match _connect self a with
  | (inl e, self1, ev0) => (inl e, self1, ev0)
  | (inr _, self1, ev0) =>
      let '(err, result0, ev1) := try_body self1 query0 params fetch_mode a in
      match err with
      | None =>
          (raise_or (close_raises a) result0, self1, ev0 ++ ev1 ++ [CloseCursor])
      | Some e =>
          let ev2 := [Stderr ("ERROR: " ++ str_of e ++ newline)%string] in
          match rollback self1 a with
          | (inl e', ev3) => (inl e', self1, ev0 ++ ev1 ++ ev2 ++ ev3)
          | (inr _, ev3) =>
              (raise_or (close_raises a) result0, self1,
               ev0 ++ ev1 ++ ev2 ++ ev3 ++ [CloseCursor])
          end
      end
  end.

(** [Q.execute] with the current database [db]. *)
Definition execute (db : t) (sql : string) (params : list pyval)
           (fetch_mode : option string) (a : answers)
  : (raised + result) * t * list event :=
  query db sql params fetch_mode a.

(** A use of a [Database] instance by its caller. *)
Inductive op : Type :=
| OpQuery (query0 : string) (params : list pyval) (fetch_mode : option string)
          (a : answers)
| OpClose (raises : option string).

(** The instance and the calls made so far, after one more use; an
    exception that the use raises is left to the caller and does not stop
    the sequence. *)
Definition run_op (st : t * list event) (o : op) : t * list event :=
  match o with
  | OpQuery query0 params fetch_mode a =>
      let '(_, self1, ev) := query (fst st) query0 params fetch_mode a in
      (self1, snd st ++ ev)
  | OpClose raises =>
      let '(_, self1, ev) := close (fst st) raises in
      (self1, snd st ++ ev)
  end.

Definition run_ops (self : t) (ops : list op) : t * list event :=
  fold_left run_op ops (self, []).

Definition is_connect (e : event) : bool :=
  match e with Connect _ => true | _ => false end.

(** The number of calls of the driver's [connect]. *)
Definition connects (ev : list event) : nat := length (filter is_connect ev).

(** In this use the driver's [connect], if called, returns. *)
Definition connect_returns (o : op) : Prop :=
  match o with
  | OpQuery _ _ _ a => connect_raises a = None
  | OpClose _ => True
  end.

(** Opening and closing the cursor and rolling back raise nothing, and
    neither does connecting. *)
Definition cleanup_succeeds (a : answers) : Prop :=
  connect_raises a = None /\ cursor_raises a = None /\
  rollback_raises a = None /\ close_raises a = None.

(** The calls that open the cursor: with a connection first when there
    is none yet. *)
Definition opening (self : t) : list event :=
  if _con self then [OpenCursor]
  else [Connect (_dsn self); SetRowFactory; OpenCursor].

End Gateway.

(** [Q.insert], [Q.update] and [Q.delete] to their end, with the current
    database [db]: the statement is assembled and executed without a
    fetch mode.  [inl] is the exception of the assembly. *)
Definition Q_insert_run (db : Gateway.t) (self : Q.t) (vals : Dict.t pyval)
           (a : Gateway.answers)
  : exn + (Gateway.raised + Gateway.result) * Gateway.t * list Gateway.event :=
  match snd (Q_insert self vals) with
  | inl e => inl e
  | inr (sql, params) => inr (Gateway.execute db sql params None a)
  end.

Definition Q_update_run (db : Gateway.t) (self : Q.t) (vals : Dict.t pyval)
           (a : Gateway.answers)
  : exn + (Gateway.raised + Gateway.result) * Gateway.t * list Gateway.event :=
  match snd (Q_update self vals) with
  | inl e => inl e
  | inr (sql, params) => inr (Gateway.execute db sql params None a)
  end.

Definition Q_delete_run (db : Gateway.t) (self : Q.t) (a : Gateway.answers)
  : exn + (Gateway.raised + Gateway.result) * Gateway.t * list Gateway.event :=
  match Q_delete self with
  | inl e => inl e
  | inr (sql, params) => inr (Gateway.execute db sql params None a)
  end.

(** [Q.fetch] and [Q.fetch_one] to their end. *)
Definition Q_fetch_run (db : Gateway.t) (self : Q.t) (a : Gateway.answers)
  : exn + (Gateway.raised + Gateway.result) * Gateway.t * list Gateway.event :=
  match Q_fetch self with
  | inl e => inl e
  | inr (sql, params) => inr (Gateway.execute db sql params (Some "all") a)
  end.

Definition Q_fetch_one_run (db : Gateway.t) (self : Q.t) (a : Gateway.answers)
  : exn + (Gateway.raised + Gateway.result) * Gateway.t * list Gateway.event :=
  match Q_fetch self with
  | inl e => inl e
  | inr (sql, params) => inr (Gateway.execute db sql params (Some "one") a)
  end.

(** ** Strings *)

Lemma rjust_nonempty (c : ascii) (s : string) :
  PyStr.rjust 1 (String c s) = String c s.
Proof. reflexivity. Qed.

Lemma rjust_empty : PyStr.rjust 1 "" = " ".
Proof. reflexivity. Qed.

Lemma append_empty_r (s : string) : (s ++ "")%string = s.
Proof. induction s as [|c s IH]; simpl; [reflexivity | now rewrite IH]. Qed.

Lemma join_cons2 (sep a b : string) (rest : list string) :
  PyStr.join sep (a :: b :: rest) = (a ++ sep ++ PyStr.join sep (b :: rest))%string.
Proof. reflexivity. Qed.

(** ** Table.identifier *)

Lemma identifier_no_alias (t : Table) :
  alias t = "" -> identifier t = name t.
Proof.
  intros H. unfold identifier. rewrite H. simpl. apply append_empty_r.
Qed.

(** When the alias has a character that is not white space, the
    identifier is the name immediately followed by the stripped alias:
    [rjust(1)] pads nothing. *)
Lemma identifier_alias_glued (t : Table) :
  PyStr.strip (alias t) <> "" ->
  identifier t = (name t ++ PyStr.strip (alias t))%string.
Proof.
  intros H. unfold identifier.
  destruct (alias t) as [|c a] eqn:E.
  - exfalso. apply H. reflexivity.
  - cbn [PyStr.truthy]. destruct (PyStr.strip (String c a)) as [|c' s'] eqn:Es.
    + contradiction.
    + now rewrite rjust_nonempty.
Qed.

Lemma identifier_name_prefix (t : Table) :
  exists suffix, identifier t = (name t ++ suffix)%string.
Proof. unfold identifier. eexists. reflexivity. Qed.

(** C2.  [Table.identifier] on the table [users] with the alias [u]
    returns [usersu]: the alias follows the name with nothing between
    them, so the identifier is not the name and the alias separated. *)
Theorem identifier_alias_not_separated :
  identifier (mkTable "users" "id" "u") = "usersu" /\
  identifier (mkTable "users" "id" "u") <> "users u" /\
  identifier (mkTable "users" "id" "") = "users".
Proof. repeat split; try reflexivity. discriminate. Qed.

(** ** Dispatch on the mode *)

Section Dispatch.
Context {B : Type} (bs bi bu bd : B).

(** What [getattr] finds under a name of the form [_build_<mode>]: only
    the four builders carry the prefix. *)
Lemma getattr_build (mode : string) :
  getattr (Database_attributes bs bi bu bd) ("_build_" ++ mode) =
    if String.eqb "select" mode then Some (Builder bs)
    else if String.eqb "insert" mode then Some (Builder bi)
    else if String.eqb "update" mode then Some (Builder bu)
    else if String.eqb "delete" mode then Some (Builder bd)
    else None.
Proof.
  cbn.
  destruct (String.eqb "select" mode); [reflexivity|].
  destruct (String.eqb "insert" mode); [reflexivity|].
  destruct (String.eqb "update" mode); [reflexivity|].
  destruct (String.eqb "delete" mode); reflexivity.
Qed.

Lemma getattr_build_unrecognized (mode : string) :
  ~ In mode recognized_modes ->
  getattr (Database_attributes bs bi bu bd) ("_build_" ++ mode) = None.
Proof.
  intros H. rewrite getattr_build.
  repeat match goal with
  | |- context [String.eqb ?m mode] =>
      let E := fresh "E" in
      destruct (String.eqb_spec m mode) as [E|E];
      [exfalso; apply H; rewrite <- E; simpl; tauto|]
  end.
  reflexivity.
Qed.

Lemma getattr_build_recognized (mode : string) :
  In mode recognized_modes ->
  exists f, getattr (Database_attributes bs bi bu bd) ("_build_" ++ mode)
            = Some (Builder f) /\
            ((mode = "select" /\ f = bs) \/ (mode = "insert" /\ f = bi) \/
             (mode = "update" /\ f = bu) \/ (mode = "delete" /\ f = bd)).
Proof.
  intros H. simpl in H.
  destruct H as [H|[H|[H|[H|[]]]]]; subst mode; eexists; split;
    try reflexivity; tauto.
Qed.
End Dispatch.

Lemma assemble_recognized (qry : Q.t) :
  Database.assemble qry "select" = inr (Database._build_select qry) /\
  Database.assemble qry "insert" = inr (Database._build_insert qry) /\
  Database.assemble qry "update" = inr (Database._build_update qry) /\
  Database.assemble qry "delete" = inr (Database._build_delete qry).
Proof. repeat split. Qed.

(** On the recognized modes the source and the dispatch of the
    specification agree. *)
Lemma assemble_spec_recognized (qry : Q.t) (mode : string) :
  In mode recognized_modes ->
  Database.assemble qry mode = Database.assemble_spec qry mode.
Proof.
  intros H. simpl in H.
  destruct H as [H|[H|[H|[H|[]]]]]; subst mode; reflexivity.
Qed.

(** C1, as amended.  For a mode string outside the four recognized
    values, [assemble] does look the handler [_build_<mode>] up by name and
    fails with the [AttributeError] of that lookup. *)
Theorem assemble_unrecognized_mode (qry : Q.t) (mode : string) :
  ~ In mode recognized_modes ->
  Database.assemble qry mode = inl (AttributeError ("_build_" ++ mode)).
Proof.
  intros H. unfold Database.assemble, Database.attributes.
  now rewrite getattr_build_unrecognized.
Qed.

Lemma assemble_unrecognized_mode_witness :
  ~ In "merge" recognized_modes /\
  Database.assemble (Q.init (mkTableClass "users" "id")) "merge"
    = inl (AttributeError "_build_merge").
Proof.
  assert (H : ~ In "merge" recognized_modes).
  { simpl. intros [H|[H|[H|[H|[]]]]]; discriminate. }
  split; [exact H|].
  exact (assemble_unrecognized_mode (Q.init (mkTableClass "users" "id")) "merge" H).
Defined.

(** C1, as stated, fails: with the mode [merge] the error is the
    [AttributeError] of the lookup of [_build_merge], not the dedicated
    error that the dispatch of the specification gives. *)
Lemma assemble_unsupported_mode_counterexample :
  ~ In "merge" recognized_modes /\
  Database.assemble (Q.init (mkTableClass "users" "id")) "merge"
    = inl (AttributeError "_build_merge") /\
  Database.assemble_spec (Q.init (mkTableClass "users" "id")) "merge"
    = inl (UnsupportedMode "merge") /\
  ~ (forall qry mode, ~ In mode recognized_modes ->
       Database.assemble qry mode = inl (UnsupportedMode mode)).
Proof.
  assert (H : ~ In "merge" recognized_modes).
  { simpl. intros [H|[H|[H|[H|[]]]]]; discriminate. }
  repeat split; try exact H.
  intros C. specialize (C (Q.init (mkTableClass "users" "id")) "merge" H).
  discriminate C.
Qed.

(** ** The loops over the Setter's items *)

Lemma insert_loop_from (items : list (string * Expr.t))
      (cols vals : list string) (params : list pyval) :
  fold_left
    (fun '(cols, vals, params) '(c, q) =>
       (cols ++ [c], vals ++ ["?"], params ++ Expr.params q))
    items (cols, vals, params)
  = (cols ++ map fst items,
     vals ++ map (fun _ => "?") items,
     params ++ setter_params items).
Proof.
  revert cols vals params.
  induction items as [|[c q] items IH]; intros cols vals params; simpl.
  - now rewrite !app_nil_r.
  - rewrite IH. now rewrite <- !app_assoc.
Qed.

Lemma insert_loop_eq (items : list (string * Expr.t)) :
  Database.insert_loop items
  = (map fst items, map (fun _ => "?") items, setter_params items).
Proof. unfold Database.insert_loop. now rewrite insert_loop_from. Qed.

Lemma update_loop_from (items : list (string * Expr.t))
      (cols : list string) (vals : list pyval) :
  fold_left
    (fun '(cols, vals) '(c, q) =>
       (cols ++ [(c ++ " = " ++ Expr.value q)%string], vals ++ Expr.params q))
    items (cols, vals)
  = (cols ++ map (fun kv => (fst kv ++ " = " ++ Expr.value (snd kv))%string) items,
     vals ++ setter_params items).
Proof.
  revert cols vals.
  induction items as [|[c q] items IH]; intros cols vals; simpl.
  - now rewrite !app_nil_r.
  - rewrite IH. now rewrite <- !app_assoc.
Qed.

Lemma update_loop_eq (items : list (string * Expr.t)) :
  Database.update_loop items
  = (map (fun kv => (fst kv ++ " = " ++ Expr.value (snd kv))%string) items,
     setter_params items).
Proof. unfold Database.update_loop. now rewrite update_loop_from. Qed.

Lemma setter_params_length (items : list (string * Expr.t)) :
  length (setter_params items) = setter_param_count items.
Proof.
  unfold setter_params, setter_param_count.
  induction items as [|kv items IH]; simpl; [reflexivity|].
  now rewrite length_app, IH.
Qed.

Lemma build_insert_eq (qry : Q.t) :
  Database._build_insert qry =
    (PyStr.join " "
       ["INSERT"; "INTO"; name (Q.table qry);
        ("(" ++ PyStr.join "," (map fst (Setter.items (Q.setter qry))) ++ ")")%string;
        "VALUES";
        ("(" ++ PyStr.join "," (map (fun _ => "?") (Setter.items (Q.setter qry)))
             ++ ")")%string],
     Database._list_null (setter_params (Setter.items (Q.setter qry)))).
Proof.
  unfold Database._build_insert, Setter.call, Dict.items.
  rewrite insert_loop_eq. reflexivity.
Qed.

Lemma build_update_eq (qry : Q.t) :
  Database._build_update qry =
    (PyStr.join " "
       (Database._where
          (Database._join
             (Database._set (Database._update (Q.table qry))
                (map (fun kv => (fst kv ++ " = " ++ Expr.value (snd kv))%string)
                     (Setter.items (Q.setter qry))))
             (Joiner.joins (Q.joiner qry)))
          (Clauser.clauses (Q.clauser qry))),
     setter_params (Setter.items (Q.setter qry))
       ++ Database._list_null (Clauser.params (Q.clauser qry))).
Proof.
  unfold Database._build_update, Setter.call, Dict.items.
  rewrite update_loop_eq. reflexivity.
Qed.

(** ** Null-normalization *)

Lemma list_null_length (values : list pyval) :
  length (Database._list_null values) = length values.
Proof. apply length_map. Qed.

Lemma list_null_no_empty_string (values : list pyval) :
  ~ In (PStr "") (Database._list_null values).
Proof.
  unfold Database._list_null. intros H. apply in_map_iff in H.
  destruct H as [v [Hv _]].
  destruct v as [|s|n|x ps]; simpl in Hv; try discriminate.
  destruct s; simpl in Hv; discriminate.
Qed.

(** Every value other than the empty string is kept as it is. *)
Lemma list_null_nth (values : list pyval) (i : nat) (v : pyval) :
  nth_error values i = Some v ->
  nth_error (Database._list_null values) i
  = Some (if Database.is_empty_str v then PNone else v).
Proof.
  intros H. unfold Database._list_null. rewrite nth_error_map, H. reflexivity.
Qed.

(** C3.  In update mode the parameters are the Setter's parameters in
    iteration order, as they are, followed by the Clauser's parameters in
    clause order, null-normalized; their number is the sum of the Setter's
    parameter counts plus the Clauser's parameter count. *)
Theorem update_params_setter_then_clauser (qry : Q.t) :
  exists sql params,
    Database.assemble qry "update" = inr (sql, params) /\
    params = setter_params (Setter.items (Q.setter qry))
               ++ Database._list_null (Clauser.params (Q.clauser qry)) /\
    length params = setter_param_count (Setter.items (Q.setter qry))
                    + length (Clauser.params (Q.clauser qry)) /\
    firstn (setter_param_count (Setter.items (Q.setter qry))) params
      = setter_params (Setter.items (Q.setter qry)) /\
    skipn (setter_param_count (Setter.items (Q.setter qry))) params
      = Database._list_null (Clauser.params (Q.clauser qry)).
Proof.
  do 2 eexists. split.
  - change (Database.assemble qry "update") with (@inr exn _ (Database._build_update qry)).
    rewrite build_update_eq. reflexivity.
  - split; [reflexivity|].
    rewrite length_app, list_null_length, setter_params_length.
    split; [reflexivity|].
    rewrite <- setter_params_length.
    split.
    + rewrite firstn_app, Nat.sub_diag, firstn_all. simpl. apply app_nil_r.
    + rewrite skipn_app, Nat.sub_diag, skipn_all. reflexivity.
Qed.

(** In update mode an empty string set as a value is bound as it is,
    while one given to [where] is bound as [None]. *)
Example update_null_where_only :
  snd (Q_update (Q.where_ (Q.init (mkTableClass "users" "id"))
                          "email = ?" (One (PStr "")) false)
                [("nick", PStr "")])
  = inr ("UPDATE users SET nick = ? WHERE email = ?", [PStr ""; PNone]).
Proof. reflexivity. Qed.

(** C4.  In insert mode the parameters are the Setter's parameters in
    iteration order with every empty string replaced by [None]; no empty
    string is among them.  Inserting [{'name': 'Alice', 'email': ''}]
    binds [['Alice', None]]. *)
Theorem insert_params_null_normalized :
  (forall qry : Q.t,
     exists sql params,
       Database.assemble qry "insert" = inr (sql, params) /\
       params = map (fun v => if Database.is_empty_str v then PNone else v)
                    (setter_params (Setter.items (Q.setter qry))) /\
       ~ In (PStr "") params) /\
  (forall tbl : TableClass,
     snd (Q_insert (Q.init tbl) [("name", PStr "Alice"); ("email", PStr "")])
     = inr (("INSERT INTO " ++ cls_name tbl ++ " (name,email) VALUES (?,?)")%string,
            [PStr "Alice"; PNone])).
Proof.
  split.
  - intros qry. do 2 eexists. split.
    + change (Database.assemble qry "insert")
        with (@inr exn _ (Database._build_insert qry)).
      rewrite build_insert_eq. reflexivity.
    + split; [reflexivity|]. apply list_null_no_empty_string.
  - intros tbl. reflexivity.
Qed.

(** ** Clauser *)

Lemma Clauser_add_nonempty (c : Clauser.t) (w : where_call) :
  Clauser.clauses c <> [] ->
  Clauser.add c (w_clause w) (w_params w) (w_is_or w)
  = Clauser.mk (Clauser.clauses c ++ [connector w; w_clause w])
               (Clauser.params c ++ to_list (w_params w)).
Proof.
  intros H. unfold Clauser.add, connector.
  destruct (Clauser.clauses c) as [|x l]; [contradiction|].
  now rewrite <- app_assoc.
Qed.

Lemma Clauser_fold_nonempty (calls : list where_call) (c : Clauser.t) :
  Clauser.clauses c <> [] ->
  fold_left (fun c w => Clauser.add c (w_clause w) (w_params w) (w_is_or w))
            calls c
  = Clauser.mk
      (Clauser.clauses c ++ flat_map (fun w => [connector w; w_clause w]) calls)
      (Clauser.params c ++ flat_map (fun w => to_list (w_params w)) calls).
Proof.
  revert c. induction calls as [|w calls IH]; intros c H; simpl.
  - rewrite !app_nil_r. now destruct c.
  - rewrite IH.
    + rewrite Clauser_add_nonempty by assumption. simpl.
      now rewrite <- !app_assoc.
    + rewrite Clauser_add_nonempty by assumption. simpl.
      now destruct (Clauser.clauses c).
Qed.

Lemma Clauser_after_eq (calls : list where_call) :
  Clauser_after calls
  = Clauser.mk (alternating calls)
               (flat_map (fun w => to_list (w_params w)) calls).
Proof.
  unfold Clauser_after. destruct calls as [|w calls]; [reflexivity|].
  simpl. rewrite Clauser_fold_nonempty by (simpl; discriminate).
  reflexivity.
Qed.

Lemma alternating_length (calls : list where_call) :
  length (alternating calls) = length calls + (length calls - 1).
Proof.
  destruct calls as [|w calls]; [reflexivity|]. simpl.
  rewrite Nat.sub_0_r. f_equal.
  induction calls as [|w' calls IH]; simpl; [reflexivity|]. lia.
Qed.

Lemma count_connectors_pairs (calls : list where_call) :
  Forall (fun w => is_connector (w_clause w) = false) calls ->
  count_connectors (flat_map (fun w => [connector w; w_clause w]) calls)
  = length calls.
Proof.
  unfold count_connectors.
  induction 1 as [|w calls Hw _ IH]; simpl; [reflexivity|].
  rewrite Hw.
  assert (Hc : is_connector (connector w) = true)
    by (unfold connector; destruct (w_is_or w); reflexivity).
  rewrite Hc. simpl. now rewrite IH.
Qed.

Lemma count_connectors_alternating (calls : list where_call) :
  Forall (fun w => is_connector (w_clause w) = false) calls ->
  count_connectors (alternating calls) = length calls - 1.
Proof.
  intros H. destruct calls as [|w calls]; [reflexivity|].
  inversion H as [|? ? Hw Hrest]; subst.
  unfold count_connectors in *. simpl. rewrite Hw.
  rewrite Nat.sub_0_r. now apply count_connectors_pairs.
Qed.

(** C5.  After any sequence of [where] calls the clause list is the
    first clause followed by one connector and one clause for each further
    call, so it holds one connector less than clauses (none when there is
    no clause); the parameter list holds the parameters given and nothing
    else. *)
Theorem where_connectors_between_clauses (calls : list where_call) :
  Clauser.call (Clauser_after calls) = alternating calls /\
  length (Clauser.call (Clauser_after calls))
    = length calls + (length calls - 1) /\
  Clauser.params (Clauser_after calls)
    = flat_map (fun w => to_list (w_params w)) calls /\
  (Forall (fun w => is_connector (w_clause w) = false) calls ->
   count_connectors (Clauser.call (Clauser_after calls)) = length calls - 1).
Proof.
  rewrite Clauser_after_eq. unfold Clauser.call. simpl.
  repeat split.
  - apply alternating_length.
  - apply count_connectors_alternating.
Qed.

Lemma where_connectors_between_clauses_witness :
  count_connectors
    (Clauser.call
       (Clauser_after [mkWhere "age > ?" (One (PInt 18)) false;
                       mkWhere "name = ?" (One (PStr "Bob")) true;
                       mkWhere "id IN (?,?)" (Many [PInt 1; PInt 2]) false]))
  = 2.
Proof.
  apply (where_connectors_between_clauses
           [mkWhere "age > ?" (One (PInt 18)) false;
            mkWhere "name = ?" (One (PStr "Bob")) true;
            mkWhere "id IN (?,?)" (Many [PInt 1; PInt 2]) false]).
  repeat constructor.
Defined.

(** [Q.where] is [Clauser.add] on the builder's Clauser. *)
Lemma Q_where_clauser (q : Q.t) (clause : string) (params : arg pyval)
      (is_or : bool) :
  Q.clauser (Q.where_ q clause params is_or)
  = Clauser.add (Q.clauser q) clause params is_or.
Proof. reflexivity. Qed.

(** ** Joiner *)

(** C6.  [Joiner.add] appends exactly the join kind, [JOIN] and the
    identifier of the table; the join condition changes neither the
    Joiner nor any assembled statement. *)
Theorem joiner_add_three_tokens (self : Joiner.t) (tbl : Table)
        (join_on : string) (outer : bool) :
  Joiner.call (Joiner.add self tbl join_on outer)
    = Joiner.call self
        ++ [if outer then "OUTER" else "INNER"; "JOIN"; identifier tbl] /\
  (forall join_on' : string,
     Joiner.add self tbl join_on outer = Joiner.add self tbl join_on' outer) /\
  (forall (q : Q.t) (join_on' mode : string),
     Database.assemble (Q.join q tbl join_on outer) mode
     = Database.assemble (Q.join q tbl join_on' outer) mode).
Proof.
  split; [|split].
  - destruct outer; reflexivity.
  - reflexivity.
  - reflexivity.
Qed.

(** ** Select without columns *)

Lemma join_parts_app (parts l : list string) :
  exists t, Database._join parts l = parts ++ t.
Proof.
  destruct l; [exists []; simpl; now rewrite app_nil_r | eexists; reflexivity].
Qed.

Lemma where_parts_app (parts l : list string) :
  exists t, Database._where parts l = parts ++ t.
Proof.
  destruct l; [exists []; simpl; now rewrite app_nil_r | eexists; reflexivity].
Qed.

Lemma order_parts_app (parts l : list string) :
  exists t, Database._order parts l = parts ++ t.
Proof.
  destruct l; [exists []; simpl; now rewrite app_nil_r | eexists; reflexivity].
Qed.

Lemma limit_parts_app (parts l : list string) :
  exists t, Database._limit parts l = parts ++ t.
Proof.
  destruct l; [exists []; simpl; now rewrite app_nil_r | eexists; reflexivity].
Qed.

Lemma join_last_prefix (sep d : string) (t : list string) :
  exists tail, PyStr.join sep (d :: t) = (d ++ tail)%string.
Proof.
  destruct t as [|x t].
  - exists "". simpl. now rewrite append_empty_r.
  - eexists. apply join_cons2.
Qed.

(** C8.  When no column has been selected the Selector renders the
    single entry [*], and the select statement starts with
    [SELECT * FROM <identifier>]. *)
Theorem select_without_columns_star (qry : Q.t) :
  Selector.cols (Q.selector qry) = [] ->
  Selector.call (Q.selector qry) = ["*"] /\
  PyStr.join "," (Selector.call (Q.selector qry)) = "*" /\
  exists tail,
    Database.assemble qry "select"
    = inr (("SELECT * FROM " ++ identifier (Q.table qry) ++ tail)%string,
           Clauser.params (Q.clauser qry)).
Proof.
  intros H.
  assert (Hc : Selector.call (Q.selector qry) = ["*"])
    by (unfold Selector.call; now rewrite H).
  split; [exact Hc|]. split; [now rewrite Hc|].
  change (Database.assemble qry "select")
    with (@inr exn _ (Database._build_select qry)).
  unfold Database._build_select. rewrite Hc.
  unfold Database._select, Database._from. cbn [PyStr.join String.concat app].
  destruct (join_parts_app ["SELECT"; "*"; "FROM"; identifier (Q.table qry)]
              (Joiner.call (Q.joiner qry))) as [t1 ->].
  destruct (where_parts_app (["SELECT"; "*"; "FROM"; identifier (Q.table qry)] ++ t1)
              (Clauser.call (Q.clauser qry))) as [t2 ->].
  destruct (order_parts_app
              ((["SELECT"; "*"; "FROM"; identifier (Q.table qry)] ++ t1) ++ t2)
              (Orderer.call (Q.orderer qry))) as [t3 ->].
  destruct (limit_parts_app
              (((["SELECT"; "*"; "FROM"; identifier (Q.table qry)] ++ t1) ++ t2) ++ t3)
              (Limiter.call (Q.limiter qry))) as [t4 ->].
  rewrite <- !app_assoc. cbn [app].
  destruct (join_last_prefix " " (identifier (Q.table qry)) (t1 ++ t2 ++ t3 ++ t4))
    as [tail Ht].
  exists tail. rewrite !join_cons2, Ht. reflexivity.
Qed.

Lemma select_without_columns_star_witness :
  exists tail,
    Database.assemble
      (Q.where_ (Q.init (mkTableClass "users" "id")) "age > ?" (One (PInt 18)) false)
      "select"
    = inr (("SELECT * FROM " ++ "users" ++ tail)%string, [PInt 18]).
Proof.
  apply (select_without_columns_star
           (Q.where_ (Q.init (mkTableClass "users" "id")) "age > ?"
                     (One (PInt 18)) false)).
  reflexivity.
Defined.

(** A builder on which [select] was never called has no column. *)
Lemma built_without_select (tbl : TableClass) (calls : list call) :
  Forall (fun c => match c with CallSelect _ _ => False | _ => True end) calls ->
  Selector.cols (Q.selector (built tbl calls)) = [].
Proof.
  unfold built.
  assert (G : forall q, Selector.cols (Q.selector q) = [] ->
     Forall (fun c => match c with CallSelect _ _ => False | _ => True end) calls ->
     Selector.cols (Q.selector (fold_left apply_call calls q)) = []).
  { induction calls as [|c calls IH]; intros q Hq Hall; simpl; [exact Hq|].
    inversion Hall as [|? ? Hc Hrest]; subst.
    apply IH; [|exact Hrest].
    destruct c; simpl in *; try exact Hq. contradiction. }
  apply G. reflexivity.
Qed.

(** ** Setter: keys *)

Lemma Dict_set_keys_in {V : Type} (d : Dict.t V) (k : string) (v : V) (x : string) :
  In x (Dict.keys (Dict.set d k v)) <-> x = k \/ In x (Dict.keys d).
Proof.
  unfold Dict.keys.
  induction d as [|[k' v'] d IH]; simpl.
  - intuition congruence.
  - destruct (String.eqb_spec k' k) as [E|E]; simpl.
    + subst k'. intuition congruence.
    + rewrite IH. intuition congruence.
Qed.

Lemma Dict_set_keys_NoDup {V : Type} (d : Dict.t V) (k : string) (v : V) :
  NoDup (Dict.keys d) -> NoDup (Dict.keys (Dict.set d k v)).
Proof.
  induction d as [|[k' v'] d IH]; simpl; intros H.
  - constructor; [intros []|constructor].
  - inversion H as [|? ? Hnin Hd]; subst.
    destruct (String.eqb_spec k' k) as [E|E]; simpl.
    + subst k'. now constructor.
    + constructor; [|now apply IH].
      intros Hin. apply (Dict_set_keys_in d k v k') in Hin.
      destruct Hin as [Hin|Hin]; [congruence | contradiction].
Qed.


Lemma apply_call_keys (q : Q.t) (c : call) :
  Dict.keys (Setter.items (Q.setter (apply_call q c)))
  = match c with
    | CallSet k v =>
        Dict.keys (Dict.set (Setter.items (Q.setter q)) k
                     match v with
                     | PExpr x ps => Expr.mk x ps
                     | _ => Expr.mk "?" [v]
                     end)
    | _ => Dict.keys (Setter.items (Q.setter q))
    end.
Proof. destruct c; reflexivity. Qed.

Lemma calls_keys (calls : list call) (q : Q.t) :
  NoDup (Dict.keys (Setter.items (Q.setter q))) ->
  NoDup (Dict.keys (Setter.items (Q.setter (fold_left apply_call calls q)))) /\
  forall x, In x (Dict.keys (Setter.items (Q.setter (fold_left apply_call calls q))))
            <-> In x (Dict.keys (Setter.items (Q.setter q))) \/ In x (set_keys calls).
Proof.
  revert q. induction calls as [|c calls IH]; intros q Hq; simpl.
  - split; [exact Hq|]. intros x. tauto.
  - assert (Hq' : NoDup (Dict.keys (Setter.items (Q.setter (apply_call q c))))).
    { rewrite apply_call_keys. destruct c; try exact Hq.
      now apply Dict_set_keys_NoDup. }
    destruct (IH _ Hq') as [Hnd Hin]. split; [exact Hnd|].
    intros x. rewrite Hin, in_app_iff, apply_call_keys.
    destruct c; simpl; try tauto.
    rewrite Dict_set_keys_in. intuition congruence.
Qed.

Lemma built_keys_count (tbl : TableClass) (calls : list call) :
  length (Setter.items (Q.setter (built tbl calls)))
  = length (nodup string_dec (set_keys calls)).
Proof.
  destruct (calls_keys calls (Q.init tbl)) as [Hnd Hin]; [constructor|].
  fold (built tbl calls) in Hnd, Hin.
  rewrite <- (length_map fst (Setter.items (Q.setter (built tbl calls)))).
  apply Permutation_length, NoDup_Permutation.
  - exact Hnd.
  - apply NoDup_nodup.
  - intros x. rewrite nodup_In. unfold Dict.keys in Hin. rewrite Hin.
    simpl. tauto.
Qed.

Lemma insert_cols_eq (qry : Q.t) :
  Database.insert_cols qry = map fst (Setter.items (Q.setter qry)).
Proof.
  unfold Database.insert_cols, Setter.call, Dict.items.
  now rewrite insert_loop_eq.
Qed.

Lemma insert_vals_eq (qry : Q.t) :
  Database.insert_vals qry = map (fun _ => "?") (Setter.items (Q.setter qry)).
Proof.
  unfold Database.insert_vals, Setter.call, Dict.items.
  now rewrite insert_loop_eq.
Qed.

Lemma build_insert_sql (qry : Q.t) :
  fst (Database._build_insert qry)
  = PyStr.join " "
      ["INSERT"; "INTO"; name (Q.table qry);
       ("(" ++ PyStr.join "," (Database.insert_cols qry) ++ ")")%string;
       "VALUES";
       ("(" ++ PyStr.join "," (Database.insert_vals qry) ++ ")")%string].
Proof.
  rewrite build_insert_eq, insert_cols_eq, insert_vals_eq. reflexivity.
Qed.

(** C9.  In insert mode the column list and the placeholder list are
    the two lists rendered between parentheses; they have the same length
    in every builder state, and for a builder made by any sequence of calls
    that length is the number of distinct keys passed to [set]. *)
Theorem insert_columns_placeholders_distinct_keys :
  (forall qry : Q.t,
     exists sql params,
       Database.assemble qry "insert" = inr (sql, params) /\
       sql = PyStr.join " "
               ["INSERT"; "INTO"; name (Q.table qry);
                ("(" ++ PyStr.join "," (Database.insert_cols qry) ++ ")")%string;
                "VALUES";
                ("(" ++ PyStr.join "," (Database.insert_vals qry) ++ ")")%string] /\
       length (Database.insert_cols qry) = length (Database.insert_vals qry)) /\
  (forall (tbl : TableClass) (calls : list call),
     length (Database.insert_cols (built tbl calls))
       = length (nodup string_dec (set_keys calls)) /\
     length (Database.insert_vals (built tbl calls))
       = length (nodup string_dec (set_keys calls))).
Proof.
  split.
  - intros qry. do 2 eexists. split; [|split].
    + change (Database.assemble qry "insert")
        with (@inr exn _ (Database._build_insert qry)).
      apply f_equal. apply surjective_pairing.
    + apply build_insert_sql.
    + now rewrite insert_cols_eq, insert_vals_eq, !length_map.
  - intros tbl calls.
    rewrite insert_cols_eq, insert_vals_eq, !length_map.
    split; apply built_keys_count.
Qed.

Example insert_key_set_twice :
  Database.assemble
    (built (mkTableClass "users" "id")
       [CallSet "name" (PStr "Alice"); CallSet "email" (PStr "a@x");
        CallSet "name" (PStr "Bob")])
    "insert"
  = inr ("INSERT INTO users (name,email) VALUES (?,?)", [PStr "Bob"; PStr "a@x"]).
Proof. reflexivity. Qed.

(** ** Insert: placeholders and parameters *)

Lemma one_param_count (items : list (string * Expr.t)) :
  Forall one_param items -> setter_param_count items = length items.
Proof.
  unfold setter_param_count.
  induction 1 as [|kv items Hkv _ IH]; simpl; [reflexivity|].
  unfold one_param in Hkv. now rewrite Hkv, IH.
Qed.

Lemma setter_param_count_app (a b : list (string * Expr.t)) :
  setter_param_count (a ++ b) = setter_param_count a + setter_param_count b.
Proof.
  unfold setter_param_count. now rewrite map_app, list_sum_app.
Qed.

(** C10, as amended.  In insert mode every Setter entry contributes
    the placeholder [?] whatever the value of its [Expr], and all the
    parameters of its [Expr]; the placeholders are as many as the entries
    and the parameters as many as the sum of the entries' parameter counts.
    When every other entry binds exactly one parameter, the two counts are
    equal exactly when the remaining entry binds one parameter too. *)
Theorem insert_placeholder_per_entry (qry : Q.t) :
  Database.insert_vals qry = map (fun _ => "?") (Setter.items (Q.setter qry)) /\
  snd (Database._build_insert qry)
    = Database._list_null (setter_params (Setter.items (Q.setter qry))) /\
  length (Database.insert_vals qry) = length (Setter.items (Q.setter qry)) /\
  length (snd (Database._build_insert qry))
    = setter_param_count (Setter.items (Q.setter qry)) /\
  (forall pre k e post,
     Setter.items (Q.setter qry) = pre ++ (k, e) :: post ->
     Forall one_param pre -> Forall one_param post ->
     (length (Database.insert_vals qry) = length (snd (Database._build_insert qry))
      <-> length (Expr.params e) = 1)).
Proof.
  rewrite insert_vals_eq, build_insert_eq. cbn [snd].
  rewrite list_null_length, setter_params_length, length_map.
  repeat split; intros; subst;
    match goal with
    | H : Setter.items _ = _ |- _ => rewrite H in *
    end;
    rewrite setter_param_count_app in *;
    change (setter_param_count ((k, e) :: post))
      with (length (Expr.params e) + setter_param_count post) in *;
    rewrite !one_param_count in * by assumption;
    rewrite length_app in *; simpl in *; lia.
Qed.

Lemma insert_placeholder_per_entry_witness :
  length (Database.insert_vals
            (built (mkTableClass "users" "id")
               [CallSet "name" (PStr "Alice");
                CallSet "created" (PExpr "NOW()" [])]))
  <> length (snd (Database._build_insert
            (built (mkTableClass "users" "id")
               [CallSet "name" (PStr "Alice");
                CallSet "created" (PExpr "NOW()" [])]))).
Proof.
  intros H.
  apply (insert_placeholder_per_entry
           (built (mkTableClass "users" "id")
              [CallSet "name" (PStr "Alice");
               CallSet "created" (PExpr "NOW()" [])]))
    with (pre := [("name", Expr.mk "?" [PStr "Alice"])])
         (k := "created") (e := Expr.mk "NOW()" []) (post := []) in H.
  - discriminate H.
  - reflexivity.
  - repeat constructor.
  - constructor.
Defined.

(** C10, as stated, fails: with one entry that binds no parameter and
    one that binds two, the statement has two placeholders and two
    parameters. *)
Lemma insert_counts_cancel_counterexample :
  let qry := built (mkTableClass "orders" "id")
               [CallSet "created" (PExpr "NOW()" []);
                CallSet "total" (PExpr "? + ?" [PInt 1; PInt 2])] in
  In ("created", Expr.mk "NOW()" []) (Setter.items (Q.setter qry)) /\
  In ("total", Expr.mk "? + ?" [PInt 1; PInt 2]) (Setter.items (Q.setter qry)) /\
  Database.assemble qry "insert"
    = inr ("INSERT INTO orders (created,total) VALUES (?,?)", [PInt 1; PInt 2]) /\
  length (Database.insert_vals qry) = length (snd (Database._build_insert qry)) /\
  ~ (forall (q : Q.t) (k : string) (e : Expr.t),
       In (k, e) (Setter.items (Q.setter q)) ->
       length (Expr.params e) <> 1 ->
       length (Database.insert_vals q) <> length (snd (Database._build_insert q))).
Proof.
  cbv zeta. repeat split.
  - simpl. tauto.
  - simpl. tauto.
  - intros C.
    apply (C (built (mkTableClass "orders" "id")
                [CallSet "created" (PExpr "NOW()" []);
                 CallSet "total" (PExpr "? + ?" [PInt 1; PInt 2])])
             "created" (Expr.mk "NOW()" [])).
    + simpl. tauto.
    + discriminate.
    + reflexivity.
Qed.

(** ** The store: primitives *)

Section StoreFacts.
Import Store.

Lemma nth_error_fresh (h t : store) (k : nat) :
  nth_error (h ++ t) (length h + k) = nth_error t k.
Proof. induction h as [|o h IH]; simpl; [reflexivity | exact IH]. Qed.

Lemma nth_error_old (h t : store) (r : ref) (o : obj) :
  nth_error h r = Some o -> nth_error (h ++ t) r = Some o.
Proof.
  revert r. induction h as [|o' h IH]; intros [|r]; simpl; try discriminate.
  - trivial.
  - apply IH.
Qed.

Lemma update_fresh (h t : store) (k : nat) (o : obj) :
  update (h ++ t) (length h + k) o = h ++ update t k o.
Proof. induction h as [|o' h IH]; simpl; [reflexivity | now rewrite IH]. Qed.

Lemma update_same (t : store) (k : nat) (o : obj) :
  nth_error t k = Some o -> update t k o = t.
Proof.
  revert k. induction t as [|o' t IH]; intros [|k]; simpl; try discriminate.
  - now intros [= ->].
  - intros H. now rewrite IH.
Qed.

Lemma preserved_app (h t : store) : preserved h (h ++ t).
Proof. intros r o. apply nth_error_old. Qed.

Lemma preserved_trans (h1 h2 h3 : store) :
  preserved h1 h2 -> preserved h2 h3 -> preserved h1 h3.
Proof. intros H12 H23 r o H. apply H23, H12, H. Qed.

Lemma new_run (h t : store) (o : obj) :
  new o (h ++ t) = Some (length h + length t, h ++ (t ++ [o])).
Proof. unfold new. now rewrite length_app, app_assoc. Qed.

Lemma get_strs_fresh (h t : store) (k : nat) (l : list string) :
  nth_error t k = Some (StrList l) ->
  get_strs (length h + k) (h ++ t) = Some (l, h ++ t).
Proof. intros H. unfold get_strs. now rewrite nth_error_fresh, H. Qed.

Lemma get_vals_fresh (h t : store) (k : nat) (l : list pyval) :
  nth_error t k = Some (ValList l) ->
  get_vals (length h + k) (h ++ t) = Some (l, h ++ t).
Proof. intros H. unfold get_vals. now rewrite nth_error_fresh, H. Qed.

Lemma read_strs_inv (h : store) (r : ref) (l : list string) :
  read_strs h r = Some l -> nth_error h r = Some (StrList l).
Proof.
  unfold read_strs. destruct (nth_error h r) as [[]|]; congruence.
Qed.

Lemma read_vals_inv (h : store) (r : ref) (l : list pyval) :
  read_vals h r = Some l -> nth_error h r = Some (ValList l).
Proof.
  unfold read_vals. destruct (nth_error h r) as [[]|]; congruence.
Qed.

Lemma get_strs_old (h t : store) (r : ref) (l : list string) :
  read_strs h r = Some l -> get_strs r (h ++ t) = Some (l, h ++ t).
Proof.
  intros H. unfold get_strs.
  now rewrite (nth_error_old h t r _ (read_strs_inv _ _ _ H)).
Qed.

Lemma get_vals_old (h t : store) (r : ref) (l : list pyval) :
  read_vals h r = Some l -> get_vals r (h ++ t) = Some (l, h ++ t).
Proof.
  intros H. unfold get_vals.
  now rewrite (nth_error_old h t r _ (read_vals_inv _ _ _ H)).
Qed.

Lemma extend_strs_fresh (h t : store) (k : nat) (l l' : list string) :
  nth_error t k = Some (StrList l) ->
  extend_strs (length h + k) l' (h ++ t)
  = Some (tt, h ++ update t k (StrList (l ++ l'))).
Proof.
  intros H. unfold extend_strs. now rewrite nth_error_fresh, H, update_fresh.
Qed.

Lemma extend_vals_fresh (h t : store) (k : nat) (l l' : list pyval) :
  nth_error t k = Some (ValList l) ->
  extend_vals (length h + k) l' (h ++ t)
  = Some (tt, h ++ update t k (ValList (l ++ l'))).
Proof.
  intros H. unfold extend_vals. now rewrite nth_error_fresh, H, update_fresh.
Qed.

Lemma read_expr_inv (h : store) (r : ref) (e : Expr.t) :
  read_expr h r = Some e ->
  exists pr, nth_error h r = Some (ExprObj (Expr.value e) pr) /\
             read_vals h pr = Some (Expr.params e).
Proof.
  unfold read_expr. destruct (nth_error h r) as [[| |v pr|]|]; try discriminate.
  destruct (read_vals h pr) as [ps|] eqn:E; [|discriminate].
  intros [= <-]. exists pr. now split.
Qed.

(** Reading is stable under a change that preserves every object. *)
Lemma read_strs_preserved (h h' : store) (r : ref) (l : list string) :
  preserved h h' -> read_strs h r = Some l -> read_strs h' r = Some l.
Proof.
  intros P H. unfold read_strs. now rewrite (P _ _ (read_strs_inv _ _ _ H)).
Qed.

Lemma read_vals_preserved (h h' : store) (r : ref) (l : list pyval) :
  preserved h h' -> read_vals h r = Some l -> read_vals h' r = Some l.
Proof.
  intros P H. unfold read_vals. now rewrite (P _ _ (read_vals_inv _ _ _ H)).
Qed.

Lemma read_expr_preserved (h h' : store) (r : ref) (e : Expr.t) :
  preserved h h' -> read_expr h r = Some e -> read_expr h' r = Some e.
Proof.
  intros P H. destruct (read_expr_inv _ _ _ H) as [pr [H1 H2]].
  unfold read_expr. rewrite (P _ _ H1), (read_vals_preserved _ _ _ _ P H2).
  now destruct e.
Qed.

Lemma read_items_preserved (h h' : store) (d : list (string * ref))
      (its : list (string * Expr.t)) :
  preserved h h' -> read_items h d = Some its -> read_items h' d = Some its.
Proof.
  intros P. revert its. induction d as [|[k r] d IH]; simpl; intros its H.
  - exact H.
  - destruct (read_expr h r) as [e|] eqn:He; [|discriminate].
    destruct (read_items h d) as [its'|] eqn:Hd; [|discriminate].
    now rewrite (read_expr_preserved _ _ _ _ P He), (IH _ eq_refl).
Qed.

Lemma read_dict_inv (h : store) (r : ref) (its : list (string * Expr.t)) :
  read_dict h r = Some its ->
  exists d, nth_error h r = Some (DictObj d) /\ read_items h d = Some its.
Proof.
  unfold read_dict. destruct (nth_error h r) as [[| | |d]|]; try discriminate.
  intros H. now exists d.
Qed.

Lemma read_dict_preserved (h h' : store) (r : ref)
      (its : list (string * Expr.t)) :
  preserved h h' -> read_dict h r = Some its -> read_dict h' r = Some its.
Proof.
  intros P H. destruct (read_dict_inv _ _ _ H) as [d [H1 H2]].
  unfold read_dict. rewrite (P _ _ H1).
  now apply (read_items_preserved h).
Qed.

(** The contents of a builder depend only on the objects it refers to. *)
Lemma contents_preserved (h h' : store) (qry : Q) (qv : Q.t) :
  preserved h h' -> contents h qry = Some qv -> contents h' qry = Some qv.
Proof.
  intros P. unfold contents.
  destruct (read_strs h (cols qry)) as [c|] eqn:H1; [|discriminate].
  destruct (read_strs h (joins qry)) as [j|] eqn:H2; [|discriminate].
  destruct (read_strs h (clauses qry)) as [cl|] eqn:H3; [|discriminate].
  destruct (read_vals h (params qry)) as [p|] eqn:H4; [|discriminate].
  destruct (read_strs h (orders qry)) as [o|] eqn:H5; [|discriminate].
  destruct (read_strs h (limits qry)) as [l|] eqn:H6; [|discriminate].
  destruct (read_dict h (items qry)) as [it|] eqn:H7; [|discriminate].
  rewrite (read_strs_preserved _ _ _ _ P H1), (read_strs_preserved _ _ _ _ P H2),
    (read_strs_preserved _ _ _ _ P H3), (read_vals_preserved _ _ _ _ P H4),
    (read_strs_preserved _ _ _ _ P H5), (read_strs_preserved _ _ _ _ P H6),
    (read_dict_preserved _ _ _ _ P H7).
  trivial.
Qed.

Lemma contents_inv (h : store) (qry : Q) (qv : Q.t) :
  contents h qry = Some qv ->
  Q.table qv = table qry /\
  read_strs h (cols qry) = Some (Selector.cols (Q.selector qv)) /\
  read_strs h (joins qry) = Some (Joiner.joins (Q.joiner qv)) /\
  read_strs h (clauses qry) = Some (Clauser.clauses (Q.clauser qv)) /\
  read_vals h (params qry) = Some (Clauser.params (Q.clauser qv)) /\
  read_strs h (orders qry) = Some (Orderer.orders (Q.orderer qv)) /\
  read_strs h (limits qry) = Some (Limiter.limits (Q.limiter qv)) /\
  read_dict h (items qry) = Some (Setter.items (Q.setter qv)).
Proof.
  unfold contents.
  destruct (read_strs h (cols qry)) as [c|]; [|discriminate].
  destruct (read_strs h (joins qry)) as [j|]; [|discriminate].
  destruct (read_strs h (clauses qry)) as [cl|]; [|discriminate].
  destruct (read_vals h (params qry)) as [p|]; [|discriminate].
  destruct (read_strs h (orders qry)) as [o|]; [|discriminate].
  destruct (read_strs h (limits qry)) as [l|]; [|discriminate].
  destruct (read_dict h (items qry)) as [it|]; [|discriminate].
  intros [= <-]. simpl. repeat split.
Qed.

End StoreFacts.

(** ** The store: helpers of the builders *)

Section StoreHelpers.
Import Store.

Lemma bind_run {A B : Type} (c : M A) (k : A -> M B) (h h' : store) (a : A) :
  c h = Some (a, h') -> bind c k h = k a h'.
Proof. intros H. unfold bind. now rewrite H. Qed.

Lemma run_nil {A : Type} (c : M A) (h : store) (r : option (A * store)) :
  c (h ++ []) = r -> c h = r.
Proof. now rewrite app_nil_r. Qed.

Variables (h t : store) (k : nat) (p : list string).
Hypothesis Hparts : nth_error t k = Some (StrList p).

Lemma from_run (tbl : Table) :
  _from (length h + k) tbl (h ++ t)
  = Some (tt, h ++ update t k (StrList (Database._from p tbl))).
Proof. unfold _from. now apply extend_strs_fresh. Qed.

Lemma join_run (r : ref) (l : list string) :
  read_strs h r = Some l ->
  _join (length h + k) r (h ++ t)
  = Some (tt, h ++ update t k (StrList (Database._join p l))).
Proof.
  intros H. unfold _join. rewrite (bind_run _ _ _ _ _ (get_strs_old h t r l H)).
  destruct l as [|x l]; simpl.
  - unfold ret. now rewrite update_same.
  - now apply extend_strs_fresh.
Qed.

Lemma where_run (r : ref) (l : list string) :
  read_strs h r = Some l ->
  _where (length h + k) r (h ++ t)
  = Some (tt, h ++ update t k (StrList (Database._where p l))).
Proof.
  intros H. unfold _where. rewrite (bind_run _ _ _ _ _ (get_strs_old h t r l H)).
  destruct l as [|x l]; simpl.
  - unfold ret. now rewrite update_same.
  - now apply extend_strs_fresh.
Qed.

Lemma order_run (r : ref) (l : list string) :
  read_strs h r = Some l ->
  _order (length h + k) r (h ++ t)
  = Some (tt, h ++ update t k (StrList (Database._order p l))).
Proof.
  intros H. unfold _order. rewrite (bind_run _ _ _ _ _ (get_strs_old h t r l H)).
  destruct l as [|x l]; simpl.
  - unfold ret. now rewrite update_same.
  - now apply extend_strs_fresh.
Qed.

Lemma limit_run (r : ref) (l : list string) :
  read_strs h r = Some l ->
  _limit (length h + k) r (h ++ t)
  = Some (tt, h ++ update t k (StrList (Database._limit p l))).
Proof.
  intros H. unfold _limit. rewrite (bind_run _ _ _ _ _ (get_strs_old h t r l H)).
  destruct l as [|x l]; simpl.
  - unfold ret. now rewrite update_same.
  - now apply extend_strs_fresh.
Qed.

(** [_set] and [_values] read a list made by the builder itself. *)
Lemma set_run (k' : nat) (l : list string) :
  nth_error t k' = Some (StrList l) ->
  _set (length h + k) (length h + k') (h ++ t)
  = Some (tt, h ++ update t k (StrList (Database._set p l))).
Proof.
  intros H. unfold _set.
  rewrite (bind_run _ _ _ _ _ (get_strs_fresh h t k' l H)).
  now apply extend_strs_fresh.
Qed.

Lemma values_run (k' : nat) (l : list string) :
  nth_error t k' = Some (StrList l) ->
  _values (length h + k) (length h + k') (h ++ t)
  = Some (tt, h ++ update t k (StrList (Database._values p l))).
Proof.
  intros H. unfold _values.
  rewrite (bind_run _ _ _ _ _ (get_strs_fresh h t k' l H)).
  now apply extend_strs_fresh.
Qed.

End StoreHelpers.

Section StoreAlloc.
Import Store.
Variables (h t : store).

Lemma select_run_old (r : ref) (l : list string) :
  read_strs h r = Some l ->
  _select r (h ++ t)
  = Some (length h + length t, h ++ (t ++ [StrList (Database._select l)])).
Proof.
  intros H. unfold _select.
  rewrite (bind_run _ _ _ _ _ (get_strs_old h t r l H)). apply new_run.
Qed.

Lemma select_run_fresh (k : nat) (l : list string) :
  nth_error t k = Some (StrList l) ->
  _select (length h + k) (h ++ t)
  = Some (length h + length t, h ++ (t ++ [StrList (Database._select l)])).
Proof.
  intros H. unfold _select.
  rewrite (bind_run _ _ _ _ _ (get_strs_fresh h t k l H)). apply new_run.
Qed.

Lemma selector_call_run_empty (qry : Q) :
  read_strs h (cols qry) = Some [] ->
  Selector_call qry (h ++ t)
  = Some (length h + length t, h ++ (t ++ [StrList ["*"]])).
Proof.
  intros H. unfold Selector_call.
  rewrite (bind_run _ _ _ _ _ (get_strs_old h t _ _ H)). apply new_run.
Qed.

Lemma selector_call_run_cols (qry : Q) (c : string) (cs : list string) :
  read_strs h (cols qry) = Some (c :: cs) ->
  Selector_call qry (h ++ t) = Some (cols qry, h ++ t).
Proof.
  intros H. unfold Selector_call.
  now rewrite (bind_run _ _ _ _ _ (get_strs_old h t _ _ H)).
Qed.

Lemma get_expr_old (r : ref) (e : Expr.t) :
  read_expr h r = Some e ->
  exists pr, get_expr r (h ++ t) = Some ((Expr.value e, pr), h ++ t) /\
             read_vals h pr = Some (Expr.params e).
Proof.
  intros H. destruct (read_expr_inv _ _ _ H) as [pr [H1 H2]].
  exists pr. split; [|exact H2].
  unfold get_expr. now rewrite (nth_error_old h t r _ H1).
Qed.

Lemma dict_items_old (r : ref) (its : list (string * Expr.t)) :
  read_dict h r = Some its ->
  exists d, dict_items r (h ++ t) = Some (d, h ++ t) /\
            read_items h d = Some its.
Proof.
  intros H. destruct (read_dict_inv _ _ _ H) as [d [H1 H2]].
  exists d. split; [|exact H2].
  unfold dict_items. now rewrite (nth_error_old h t r _ H1).
Qed.

Lemma insert_run (tbl : Table) (k : nat) (l : list string) :
  nth_error t k = Some (StrList l) ->
  _insert tbl (length h + k) (h ++ t)
  = Some (length h + length t, h ++ (t ++ [StrList (Database._insert tbl l)])).
Proof.
  intros H. unfold _insert.
  rewrite (bind_run _ _ _ _ _ (get_strs_fresh h t k l H)). apply new_run.
Qed.

Lemma list_null_run_old (r : ref) (l : list pyval) :
  read_vals h r = Some l ->
  Store._list_null r (h ++ t)
  = Some (length h + length t, h ++ (t ++ [ValList (Database._list_null l)])).
Proof.
  intros H. unfold Store._list_null.
  rewrite (bind_run _ _ _ _ _ (get_vals_old h t r l H)). apply new_run.
Qed.

Lemma list_null_run_fresh (k : nat) (l : list pyval) :
  nth_error t k = Some (ValList l) ->
  Store._list_null (length h + k) (h ++ t)
  = Some (length h + length t, h ++ (t ++ [ValList (Database._list_null l)])).
Proof.
  intros H. unfold Store._list_null.
  rewrite (bind_run _ _ _ _ _ (get_vals_fresh h t k l H)). apply new_run.
Qed.

End StoreAlloc.

(** One step of a run: the first computation of a sequence is replaced
    by its result. *)
Ltac run_step lem :=
  erewrite bind_run by (eapply lem; first [reflexivity | eassumption]);
  cbv beta; cbn [length app Store.update].

Section StoreLoops.
Import Store.
Variable h : store.

Lemma insert_body_run (k : string) (r : ref) (e : Expr.t)
      (c v : list string) (p : list pyval) :
  read_expr h r = Some e ->
  insert_body (length h + 0) (length h + 1) (length h + 2) (k, r)
              (h ++ [StrList c; StrList v; ValList p])
  = Some (tt, h ++ [StrList (c ++ [k]); StrList (v ++ ["?"]);
                    ValList (p ++ Expr.params e)]).
Proof.
  intros He.
  destruct (get_expr_old h [StrList (c ++ [k]); StrList (v ++ ["?"]); ValList p]
              r e He) as [pr [Hg Hpr]].
  unfold insert_body.
  run_step extend_strs_fresh. run_step extend_strs_fresh.
  rewrite (bind_run _ _ _ _ _ Hg). cbn [snd].
  run_step get_vals_old.
  erewrite extend_vals_fresh by reflexivity. reflexivity.
Qed.

Lemma update_body_run (k : string) (r : ref) (e : Expr.t)
      (c : list string) (v : list pyval) :
  read_expr h r = Some e ->
  update_body (length h + 0) (length h + 1) (k, r)
              (h ++ [StrList c; ValList v])
  = Some (tt, h ++ [StrList (c ++ [(k ++ " = " ++ Expr.value e)%string]);
                    ValList (v ++ Expr.params e)]).
Proof.
  intros He.
  destruct (get_expr_old h [StrList c; ValList v] r e He) as [pr [Hg Hpr]].
  unfold update_body.
  rewrite (bind_run _ _ _ _ _ Hg). cbn [fst snd].
  run_step extend_strs_fresh.
  run_step get_vals_old.
  erewrite extend_vals_fresh by reflexivity. reflexivity.
Qed.

Lemma insert_loop_run (d : list (string * ref)) :
  forall (its : list (string * Expr.t)) (c v : list string) (p : list pyval),
    read_items h d = Some its ->
    for_each d (insert_body (length h + 0) (length h + 1) (length h + 2))
             (h ++ [StrList c; StrList v; ValList p])
    = Some (tt, h ++ [StrList (c ++ map fst its);
                      StrList (v ++ map (fun _ => "?") its);
                      ValList (p ++ setter_params its)]).
Proof.
  induction d as [|[k r] d IH]; simpl; intros its c v p H.
  - injection H as <-. unfold ret. simpl. now rewrite !app_nil_r.
  - destruct (read_expr h r) as [e|] eqn:He; [|discriminate].
    destruct (read_items h d) as [its'|] eqn:Hd; [|discriminate].
    injection H as <-.
    rewrite (bind_run _ _ _ _ _ (insert_body_run k r e c v p He)).
    rewrite (IH its' _ _ _ eq_refl). simpl.
    unfold setter_params. simpl. now rewrite <- !app_assoc.
Qed.

Lemma update_loop_run (d : list (string * ref)) :
  forall (its : list (string * Expr.t)) (c : list string) (v : list pyval),
    read_items h d = Some its ->
    for_each d (update_body (length h + 0) (length h + 1))
             (h ++ [StrList c; ValList v])
    = Some (tt, h ++ [StrList (c ++ map (fun kv => (fst kv ++ " = "
                                            ++ Expr.value (snd kv))%string) its);
                      ValList (v ++ setter_params its)]).
Proof.
  induction d as [|[k r] d IH]; simpl; intros its c v H.
  - injection H as <-. unfold ret. simpl. now rewrite !app_nil_r.
  - destruct (read_expr h r) as [e|] eqn:He; [|discriminate].
    destruct (read_items h d) as [its'|] eqn:Hd; [|discriminate].
    injection H as <-.
    rewrite (bind_run _ _ _ _ _ (update_body_run k r e c v He)).
    rewrite (IH its' _ _ eq_refl). simpl.
    unfold setter_params. simpl. now rewrite <- !app_assoc.
Qed.
End StoreLoops.

(** ** The store: the four builders

    Each builder, run on a store in which the builder's references denote
    lists, a dict and [Expr] objects, ends; it gives the statement of the
    functional model and a reference to a list with the parameters of the
    functional model; and it only adds objects to the store. *)
Section StoreBuilders.
Import Store.
Variables (h : store) (qry : Q) (qv : Q.t).
Hypothesis Hcontents : contents h qry = Some qv.

Lemma build_select_run :
  exists p junk,
    Store._build_select qry h
    = Some ((fst (Database._build_select qv), p), h ++ junk) /\
    read_vals (h ++ junk) p = Some (snd (Database._build_select qv)).
Proof.
  destruct (contents_inv _ _ _ Hcontents)
    as (Ht & Hc & Hj & Hcl & Hp & Ho & Hl & Hi).
  unfold Store._build_select, Database._build_select,
    Selector.call, Joiner.call, Clauser.call, Orderer.call, Limiter.call.
  rewrite Ht. cbn [fst snd].
  destruct (Selector.cols (Q.selector qv)) as [|c0 cs] eqn:Ecols;
    do 2 eexists; (split; [apply run_nil|]).
  - run_step selector_call_run_empty.
    run_step select_run_fresh.
    run_step from_run. run_step join_run. run_step where_run.
    run_step order_run. run_step limit_run.
    run_step get_strs_fresh.
    reflexivity.
  - apply (read_vals_preserved h); [apply preserved_app | exact Hp].
  - run_step selector_call_run_cols.
    run_step select_run_old.
    run_step from_run. run_step join_run. run_step where_run.
    run_step order_run. run_step limit_run.
    run_step get_strs_fresh.
    reflexivity.
  - apply (read_vals_preserved h); [apply preserved_app | exact Hp].
Qed.

Lemma build_delete_run :
  exists p junk,
    Store._build_delete qry h
    = Some ((fst (Database._build_delete qv), p), h ++ junk) /\
    read_vals (h ++ junk) p = Some (snd (Database._build_delete qv)).
Proof.
  destruct (contents_inv _ _ _ Hcontents)
    as (Ht & Hc & Hj & Hcl & Hp & Ho & Hl & Hi).
  unfold Store._build_delete, Database._build_delete, Store._delete,
    Database._delete, Joiner.call, Clauser.call.
  rewrite Ht. cbn [fst snd].
  do 2 eexists. split; [apply run_nil|].
  - run_step new_run.
    run_step from_run. run_step join_run. run_step where_run.
    run_step get_strs_fresh.
    reflexivity.
  - apply (read_vals_preserved h); [apply preserved_app | exact Hp].
Qed.

Lemma build_insert_run :
  exists p junk,
    Store._build_insert qry h
    = Some ((fst (Database._build_insert qv), p), h ++ junk) /\
    read_vals (h ++ junk) p = Some (snd (Database._build_insert qv)).
Proof.
  destruct (contents_inv _ _ _ Hcontents)
    as (Ht & Hc & Hj & Hcl & Hp & Ho & Hl & Hi).
  destruct (dict_items_old h [StrList []; StrList []; ValList []] _ _ Hi)
    as [d [Hd Hits]].
  rewrite build_insert_eq. unfold Store._build_insert.
  rewrite Ht. cbn [fst snd].
  do 2 eexists. split; [apply run_nil|].
  - run_step new_run. run_step new_run. run_step new_run.
    rewrite (bind_run _ _ _ _ _ Hd).
    rewrite (bind_run _ _ _ _ _ (insert_loop_run h d _ _ _ _ Hits)).
    cbn [app].
    run_step list_null_run_fresh.
    run_step insert_run.
    run_step values_run.
    run_step get_strs_fresh.
    reflexivity.
  - unfold read_vals. now rewrite nth_error_fresh.
Qed.

Lemma build_update_run :
  exists p junk,
    Store._build_update qry h
    = Some ((fst (Database._build_update qv), p), h ++ junk) /\
    read_vals (h ++ junk) p = Some (snd (Database._build_update qv)).
Proof.
  destruct (contents_inv _ _ _ Hcontents)
    as (Ht & Hc & Hj & Hcl & Hp & Ho & Hl & Hi).
  destruct (dict_items_old h [StrList []; ValList []] _ _ Hi)
    as [d [Hd Hits]].
  rewrite build_update_eq. unfold Store._build_update, Store._update,
    Database._update.
  rewrite Ht. cbn [fst snd].
  do 2 eexists. split; [apply run_nil|].
  - run_step new_run. run_step new_run.
    rewrite (bind_run _ _ _ _ _ Hd).
    rewrite (bind_run _ _ _ _ _ (update_loop_run h d _ _ _ Hits)).
    cbn [app].
    run_step new_run.
    run_step set_run. run_step join_run. run_step where_run.
    run_step list_null_run_old.
    run_step get_strs_fresh. run_step get_vals_fresh. run_step get_vals_fresh.
    run_step new_run.
    reflexivity.
  - unfold read_vals. now rewrite nth_error_fresh.
Qed.
End StoreBuilders.

(** ** Assembly over the store *)

Section StoreAssemble.
Import Store.

(** One assembly in a recognized mode ends with the statement and the
    parameters of the functional model, and changes no object that was in
    the store. *)
Lemma assemble_run (h : store) (qry : Q) (qv : Q.t) (mode : string) :
  contents h qry = Some qv ->
  In mode recognized_modes ->
  exists sql ps p h',
    Store.assemble qry mode h = Some (inr (sql, p), h') /\
    preserved h h' /\
    read_vals h' p = Some ps /\
    Database.assemble qv mode = inr (sql, ps).
Proof.
  intros Hc Hm. simpl in Hm.
  destruct Hm as [Hm|[Hm|[Hm|[Hm|[]]]]]; subst mode.
  - destruct (build_select_run h qry qv Hc) as (p & junk & Hrun & Hread).
    exists (fst (Database._build_select qv)), (snd (Database._build_select qv)),
      p, (h ++ junk).
    repeat split; [|apply preserved_app|exact Hread].
    change (Store.assemble qry "select" h)
      with (bind (Store._build_select qry) (fun r => ret (@inr exn Store.result r)) h).
    now rewrite (bind_run _ _ _ _ _ Hrun).
  - destruct (build_insert_run h qry qv Hc) as (p & junk & Hrun & Hread).
    exists (fst (Database._build_insert qv)), (snd (Database._build_insert qv)),
      p, (h ++ junk).
    repeat split; [|apply preserved_app|exact Hread|].
    + change (Store.assemble qry "insert" h)
        with (bind (Store._build_insert qry) (fun r => ret (@inr exn Store.result r)) h).
      now rewrite (bind_run _ _ _ _ _ Hrun).
    + change (Database.assemble qv "insert")
        with (@inr exn _ (Database._build_insert qv)).
      now rewrite <- surjective_pairing.
  - destruct (build_update_run h qry qv Hc) as (p & junk & Hrun & Hread).
    exists (fst (Database._build_update qv)), (snd (Database._build_update qv)),
      p, (h ++ junk).
    repeat split; [|apply preserved_app|exact Hread|].
    + change (Store.assemble qry "update" h)
        with (bind (Store._build_update qry) (fun r => ret (@inr exn Store.result r)) h).
      now rewrite (bind_run _ _ _ _ _ Hrun).
    + change (Database.assemble qv "update")
        with (@inr exn _ (Database._build_update qv)).
      now rewrite <- surjective_pairing.
  - destruct (build_delete_run h qry qv Hc) as (p & junk & Hrun & Hread).
    exists (fst (Database._build_delete qv)), (snd (Database._build_delete qv)),
      p, (h ++ junk).
    repeat split; [|apply preserved_app|exact Hread].
    change (Store.assemble qry "delete" h)
      with (bind (Store._build_delete qry) (fun r => ret (@inr exn Store.result r)) h).
    now rewrite (bind_run _ _ _ _ _ Hrun).
Qed.

(** With any other mode the lookup fails and the store is not touched. *)
Lemma assemble_run_unrecognized (h : store) (qry : Q) (mode : string) :
  ~ In mode recognized_modes ->
  Store.assemble qry mode h
  = Some (inl (AttributeError ("_build_" ++ mode)), h).
Proof.
  intros H. unfold Store.assemble, Store.attributes.
  now rewrite getattr_build_unrecognized.
Qed.

(** C7.  Two successive assemblies of a builder in a recognized mode
    end, give the same statement and parameter lists with the same
    contents, which are those of the functional model; every object that
    was in the store is unchanged after each of them, and so are the
    contents of the builder's accumulators. *)
Theorem assemble_twice_same_result_same_state
        (h : store) (qry : Q) (qv : Q.t) (mode : string) :
  contents h qry = Some qv ->
  In mode recognized_modes ->
  exists sql ps p1 h1 p2 h2,
    Store.assemble qry mode h = Some (inr (sql, p1), h1) /\
    Store.assemble qry mode h1 = Some (inr (sql, p2), h2) /\
    read_vals h1 p1 = Some ps /\
    read_vals h2 p1 = Some ps /\
    read_vals h2 p2 = Some ps /\
    preserved h h1 /\ preserved h1 h2 /\
    contents h1 qry = Some qv /\ contents h2 qry = Some qv /\
    Database.assemble qv mode = inr (sql, ps).
Proof.
  intros Hc Hm.
  destruct (assemble_run h qry qv mode Hc Hm)
    as (sql & ps & p1 & h1 & Hrun1 & Hpres1 & Hread1 & Hpure).
  pose proof (contents_preserved _ _ _ _ Hpres1 Hc) as Hc1.
  destruct (assemble_run h1 qry qv mode Hc1 Hm)
    as (sql' & ps' & p2 & h2 & Hrun2 & Hpres2 & Hread2 & Hpure').
  rewrite Hpure in Hpure'. injection Hpure' as <- <-.
  exists sql, ps, p1, h1, p2, h2.
  repeat split; try assumption.
  - now apply (read_vals_preserved h1).
  - now apply (contents_preserved h1).
Qed.

Lemma assemble_twice_same_result_same_state_witness :
  exists sql ps p1 h1 p2 h2,
    Store.assemble example_builder "update" example_store
      = Some (inr (sql, p1), h1) /\
    Store.assemble example_builder "update" h1 = Some (inr (sql, p2), h2) /\
    read_vals h1 p1 = Some ps /\
    read_vals h2 p1 = Some ps /\
    read_vals h2 p2 = Some ps /\
    preserved example_store h1 /\ preserved h1 h2 /\
    contents h1 example_builder
      = contents example_store example_builder /\
    contents h2 example_builder
      = contents example_store example_builder /\
    sql = "UPDATE users SET email = ? WHERE age > ?" /\
    ps = [PStr ""; PInt 18].
Proof.
  destruct (assemble_twice_same_result_same_state
              example_store example_builder
              (Q.mk (mkTable "users" "id" "") (Selector.mk ["id"; "name"])
                    (Joiner.mk []) (Clauser.mk ["age > ?"] [PInt 18])
                    (Orderer.mk ["name"]) (Limiter.mk ["10"])
                    (Setter.mk [("email", Expr.mk "?" [PStr ""])]))
              "update" eq_refl (or_intror (or_intror (or_introl eq_refl))))
    as (sql & ps & p1 & h1 & p2 & h2 & H1 & H2 & H3 & H4 & H5 & H6 & H7
        & H8 & H9 & H10).
  exists sql, ps, p1, h1, p2, h2.
  injection H10 as Hsql Hps.
  repeat split; try assumption; try (symmetry; assumption).
Defined.

End StoreAssemble.

(** ** The builder across chained calls *)

Lemma apply_call_table (q : Q.t) (c : call) :
  Q.table (apply_call q c) = Q.table q.
Proof. destruct c; reflexivity. Qed.

Lemma fold_calls_table (calls : list call) (q : Q.t) :
  Q.table (fold_left apply_call calls q) = Q.table q.
Proof.
  revert q. induction calls as [|c calls IH]; intros q; simpl; [reflexivity|].
  now rewrite IH, apply_call_table.
Qed.

Lemma table_of_built (tbl : TableClass) (calls : list call) :
  Q.table (built tbl calls) = mkTable (cls_name tbl) (cls_pk tbl) "" /\
  identifier (Q.table (built tbl calls)) = cls_name tbl.
Proof.
  unfold built. rewrite fold_calls_table. split; [reflexivity|].
  apply identifier_no_alias. reflexivity.
Qed.

(** X1.  No chained call changes the table of the builder, and [Q]
    creates it without alias: whatever the calls, the identifier rendered
    after FROM and UPDATE is the bare name of the table class. *)
Theorem built_table_never_aliased (tbl : TableClass) (calls : list call) :
  Q.table (built tbl calls) = mkTable (cls_name tbl) (cls_pk tbl) "" /\
  identifier (Q.table (built tbl calls)) = cls_name tbl.
Proof. apply table_of_built. Qed.

(** X2.  Two calls that write to different accumulators commute: the
    builder they leave is the same in either order. *)
Theorem calls_on_different_accumulators_commute (q : Q.t) (c1 c2 : call) :
  target c1 <> target c2 ->
  apply_call (apply_call q c1) c2 = apply_call (apply_call q c2) c1.
Proof.
  intros H. destruct c1, c2; simpl in H; try reflexivity; contradiction.
Qed.

Lemma calls_on_different_accumulators_commute_witness :
  apply_call (apply_call (Q.init (mkTableClass "users" "id"))
                (CallKey (One (PInt 7))))
             (CallSet "name" (PStr "Bob"))
  = apply_call (apply_call (Q.init (mkTableClass "users" "id"))
                  (CallSet "name" (PStr "Bob")))
               (CallKey (One (PInt 7))).
Proof.
  apply (calls_on_different_accumulators_commute
           (Q.init (mkTableClass "users" "id"))
           (CallKey (One (PInt 7))) (CallSet "name" (PStr "Bob"))).
  simpl. discriminate.
Defined.

Lemma apply_call_extends (q : Q.t) (c : call) :
  (exists s, Selector.cols (Q.selector (apply_call q c))
             = Selector.cols (Q.selector q) ++ s) /\
  (exists s, Joiner.joins (Q.joiner (apply_call q c))
             = Joiner.joins (Q.joiner q) ++ s) /\
  (exists s, Clauser.clauses (Q.clauser (apply_call q c))
             = Clauser.clauses (Q.clauser q) ++ s) /\
  (exists s, Clauser.params (Q.clauser (apply_call q c))
             = Clauser.params (Q.clauser q) ++ s) /\
  (exists s, Orderer.orders (Q.orderer (apply_call q c))
             = Orderer.orders (Q.orderer q) ++ s).
Proof.
  assert (N : forall (A : Type) (l : list A), exists s, l = l ++ s)
    by (intros A l; exists []; now rewrite app_nil_r).
  destruct c; simpl; repeat split; try apply N; try (eexists; reflexivity).
  - unfold Clauser.add. destruct (Clauser.clauses (Q.clauser q)).
    + eexists; reflexivity.
    + rewrite <- app_assoc. eexists; reflexivity.
  - unfold Clauser.add. destruct (Clauser.clauses (Q.clauser q)).
    + eexists; reflexivity.
    + rewrite <- app_assoc. eexists; reflexivity.
Qed.

(** X3.  Selector, Joiner, Clauser and Orderer only grow: after any
    further calls, the columns, join tokens, clauses, clause parameters
    and orders accumulated so far are still there, in front and in the
    same order. *)
Theorem accumulators_append_only (calls : list call) (q : Q.t) :
  (exists s, Selector.cols (Q.selector (fold_left apply_call calls q))
             = Selector.cols (Q.selector q) ++ s) /\
  (exists s, Joiner.joins (Q.joiner (fold_left apply_call calls q))
             = Joiner.joins (Q.joiner q) ++ s) /\
  (exists s, Clauser.clauses (Q.clauser (fold_left apply_call calls q))
             = Clauser.clauses (Q.clauser q) ++ s) /\
  (exists s, Clauser.params (Q.clauser (fold_left apply_call calls q))
             = Clauser.params (Q.clauser q) ++ s) /\
  (exists s, Orderer.orders (Q.orderer (fold_left apply_call calls q))
             = Orderer.orders (Q.orderer q) ++ s).
Proof.
  revert q. induction calls as [|c calls IH]; intros q; simpl.
  - repeat split; exists []; now rewrite app_nil_r.
  - destruct (IH (apply_call q c)) as ([s1 E1] & [s2 E2] & [s3 E3] & [s4 E4] & [s5 E5]).
    destruct (apply_call_extends q c)
      as ([t1 F1] & [t2 F2] & [t3 F3] & [t4 F4] & [t5 F5]).
    rewrite E1, E2, E3, E4, E5, F1, F2, F3, F4, F5.
    rewrite <- !app_assoc.
    repeat split; eexists; reflexivity.
Qed.

Lemma fold_calls_no_limit (calls : list call) (q : Q.t) :
  forallb (fun c => negb (is_limit_call c)) calls = true ->
  Q.limiter (fold_left apply_call calls q) = Q.limiter q.
Proof.
  revert q. induction calls as [|c calls IH]; intros q H; simpl; [reflexivity|].
  simpl in H. apply andb_true_iff in H. destruct H as [Hc Hrest].
  rewrite IH by exact Hrest.
  destruct c; simpl in *; try reflexivity. discriminate.
Qed.

(** X4.  The Limiter keeps the last [limit] call only: whatever was
    called before, the limits are the strings of the values of the last
    call; with no [limit] call at all there are none. *)
Theorem limiter_last_call_wins (tbl : TableClass) (before after : list call)
        (limits : arg Z) :
  forallb (fun c => negb (is_limit_call c)) after = true ->
  Limiter.call (Q.limiter (built tbl (before ++ CallLimit limits :: after)))
    = map PyStr.str_int (to_list limits) /\
  Limiter.call (Q.limiter (built tbl after)) = [].
Proof.
  intros H. unfold built. split.
  - rewrite fold_left_app. simpl. rewrite fold_calls_no_limit by exact H.
    reflexivity.
  - rewrite fold_calls_no_limit by exact H. reflexivity.
Qed.

Lemma limiter_last_call_wins_witness :
  Limiter.call
    (Q.limiter
       (built (mkTableClass "users" "id")
          ([CallLimit (One 5%Z); CallOrder (One "name")]
             ++ CallLimit (Many [10%Z; 20%Z]) :: [CallWhere "a = ?" (One PNone) false])))
  = ["10"; "20"].
Proof.
  apply (limiter_last_call_wins (mkTableClass "users" "id")
           [CallLimit (One 5%Z); CallOrder (One "name")]
           [CallWhere "a = ?" (One PNone) false] (Many [10%Z; 20%Z])).
  reflexivity.
Defined.

(** ** Selector.add *)

Lemma append_assoc_str (a b c : string) :
  ((a ++ b) ++ c)%string = (a ++ (b ++ c))%string.
Proof. induction a as [|x a IH]; simpl; [reflexivity | now rewrite IH]. Qed.

(** X5.  [Selector.add] with a non-empty alias appends one column per
    given column, each prefixed by the alias and a dot, after the columns
    already there; with the empty string as alias it adds the columns as
    they are, as without alias. *)
Theorem selector_add_alias (self : Selector.t) (cols : arg string) (a : string) :
  a <> "" ->
  (exists added,
     Selector.cols (Selector.add self cols (Some a))
       = Selector.cols self ++ added /\
     length added = length (to_list cols) /\
     Forall (fun c => exists k, In k (to_list cols) /\ c = (a ++ "." ++ k)%string)
            added) /\
  Selector.add self cols (Some "") = Selector.add self cols None /\
  Selector.cols (Selector.add self cols None)
    = Selector.cols self ++ to_list cols.
Proof.
  intros Ha. split; [|split; reflexivity].
  exists (map (fun k => (a ++ "." ++ k)%string) (to_list cols)).
  split; [|split].
  - unfold Selector.add. destruct a; [contradiction | reflexivity].
  - apply length_map.
  - apply Forall_forall. intros c Hc. apply in_map_iff in Hc.
    destruct Hc as [k [E Hk]]. exists k. now split.
Qed.

Lemma selector_add_alias_witness :
  exists added,
    Selector.cols (Selector.add (Selector.mk ["id"]) (Many ["name"; "age"]) (Some "u"))
      = ["id"] ++ added /\
    length added = 2 /\
    Forall (fun c => exists k, In k ["name"; "age"] /\ c = ("u" ++ "." ++ k)%string)
           added.
Proof.
  apply (selector_add_alias (Selector.mk ["id"]) (Many ["name"; "age"]) "u").
  discriminate.
Defined.

(** ** Setter: position and value of a key *)


Lemma Dict_get_set_same {V : Type} (d : Dict.t V) (k : string) (v : V) :
  Dict_get (Dict.set d k v) k = Some v.
Proof.
  induction d as [|[k' v'] d IH]; simpl.
  - now rewrite String.eqb_refl.
  - destruct (String.eqb_spec k' k) as [E|E]; simpl.
    + now rewrite String.eqb_refl.
    + destruct (String.eqb_spec k' k); [contradiction | exact IH].
Qed.

Lemma Dict_get_set_other {V : Type} (d : Dict.t V) (k k' : string) (v : V) :
  k' <> k -> Dict_get (Dict.set d k v) k' = Dict_get d k'.
Proof.
  intros H. induction d as [|[k0 v0] d IH]; simpl.
  - destruct (String.eqb_spec k k'); [congruence | reflexivity].
  - destruct (String.eqb_spec k0 k) as [E|E]; simpl.
    + subst k0. destruct (String.eqb_spec k k'); [congruence | reflexivity].
    + destruct (String.eqb_spec k0 k'); [reflexivity | exact IH].
Qed.



(** ** Plain values: placeholders and parameters line up *)

Lemma Dict_set_Forall {V : Type} (P : string * V -> Prop) (d : Dict.t V)
      (k : string) (v : V) :
  Forall P d -> P (k, v) -> Forall P (Dict.set d k v).
Proof.
  intros Hd Hkv. induction Hd as [|[k' v'] d Hx Hd IH]; simpl.
  - constructor; [exact Hkv | constructor].
  - destruct (String.eqb k' k); constructor; assumption.
Qed.

Lemma plain_calls_bound (calls : list call) (q : Q.t) :
  forallb plain_call calls = true ->
  Forall bound_entry (Setter.items (Q.setter q)) ->
  Forall bound_entry (Setter.items (Q.setter (fold_left apply_call calls q))).
Proof.
  revert q. induction calls as [|c calls IH]; intros q H Hq; simpl; [exact Hq|].
  simpl in H. apply andb_true_iff in H. destruct H as [Hc Hrest].
  apply IH; [exact Hrest|].
  destruct c; simpl in *; try exact Hq.
  apply Dict_set_Forall; [exact Hq|].
  destruct value; try discriminate; eexists; reflexivity.
Qed.

Lemma bound_entries_one_param (items : list (string * Expr.t)) :
  Forall bound_entry items -> Forall one_param items.
Proof.
  intros H. eapply Forall_impl; [|exact H].
  intros [k e] [v Hv]. simpl in Hv. unfold one_param. simpl. now rewrite Hv.
Qed.

Lemma bound_entries_assignments (items : list (string * Expr.t)) :
  Forall bound_entry items ->
  map (fun kv => (fst kv ++ " = " ++ Expr.value (snd kv))%string) items
  = map (fun k => (k ++ " = ?")%string) (map fst items).
Proof.
  induction 1 as [|[k e] items [v Hv] _ IH]; cbn [map fst snd]; [reflexivity|].
  cbn [snd] in Hv. now rewrite Hv, IH.
Qed.

(** X7.  When no [Expr] was ever handed to [set], the insert statement
    has as many placeholders as parameters, one per distinct key, and the
    update statement assigns [key = ?] to each key and binds one
    parameter per key before the parameters of the clauses. *)
Theorem plain_values_align (tbl : TableClass) (calls : list call) :
  forallb plain_call calls = true ->
  length (Database.insert_vals (built tbl calls))
    = length (snd (Database._build_insert (built tbl calls))) /\
  length (snd (Database._build_insert (built tbl calls)))
    = length (nodup string_dec (set_keys calls)) /\
  Database.update_loop (Setter.call (Q.setter (built tbl calls)))
    = (map (fun k => (k ++ " = ?")%string) (Database.insert_cols (built tbl calls)),
       setter_params (Setter.items (Q.setter (built tbl calls)))) /\
  length (snd (Database._build_update (built tbl calls)))
    = length (nodup string_dec (set_keys calls))
      + length (Clauser.params (Q.clauser (built tbl calls))).
Proof.
  intros H.
  assert (Hb : Forall bound_entry (Setter.items (Q.setter (built tbl calls))))
    by (apply plain_calls_bound; [exact H | constructor]).
  pose proof (bound_entries_one_param _ Hb) as H1.
  rewrite build_insert_eq, build_update_eq, insert_vals_eq, insert_cols_eq,
    update_loop_eq.
  cbn [snd]. unfold Setter.call.
  rewrite length_app, !list_null_length, setter_params_length, length_map,
    (one_param_count _ H1), built_keys_count, (bound_entries_assignments _ Hb).
  repeat split.
Qed.

Lemma plain_values_align_witness :
  length (Database.insert_vals
            (built (mkTableClass "users" "id")
               [CallSet "name" (PStr "Alice"); CallWhere "id = ?" (One (PInt 5)) false;
                CallSet "email" (PStr ""); CallSet "name" (PStr "Bob")]))
  = length (snd (Database._build_insert
            (built (mkTableClass "users" "id")
               [CallSet "name" (PStr "Alice"); CallWhere "id = ?" (One (PInt 5)) false;
                CallSet "email" (PStr ""); CallSet "name" (PStr "Bob")]))).
Proof.
  apply (plain_values_align (mkTableClass "users" "id")
           [CallSet "name" (PStr "Alice"); CallWhere "id = ?" (One (PInt 5)) false;
            CallSet "email" (PStr ""); CallSet "name" (PStr "Bob")]).
  reflexivity.
Defined.

(** ** Null-normalization, again *)

Lemma list_null_fixed (values : list pyval) :
  ~ In (PStr "") values -> Database._list_null values = values.
Proof.
  unfold Database._list_null.
  induction values as [|v values IH]; simpl; intros H; [reflexivity|].
  rewrite IH by tauto. f_equal.
  destruct v as [|s|n|x ps]; try reflexivity.
  destruct s; [|reflexivity]. exfalso. apply H. now left.
Qed.

(** X8.  [_list_null] changes nothing but empty strings: a list
    without an empty string comes back as it is, and normalizing twice is
    normalizing once. *)
Theorem list_null_idempotent (values : list pyval) :
  Database._list_null (Database._list_null values) = Database._list_null values /\
  (~ In (PStr "") values -> Database._list_null values = values).
Proof.
  split; [|apply list_null_fixed].
  apply list_null_fixed, list_null_no_empty_string.
Qed.

Lemma list_null_idempotent_witness :
  Database._list_null [PStr "a"; PNone; PInt 0] = [PStr "a"; PNone; PInt 0].
Proof.
  apply (list_null_idempotent [PStr "a"; PNone; PInt 0]).
  simpl. intros [H|[H|[H|[]]]]; discriminate.
Defined.

(** ** Statements: shared parts and footprints *)

Lemma join_app (sep : string) (l1 l2 : list string) :
  l1 <> [] -> l2 <> [] ->
  PyStr.join sep (l1 ++ l2)
  = (PyStr.join sep l1 ++ sep ++ PyStr.join sep l2)%string.
Proof.
  intros H1 H2. induction l1 as [|a l1 IH]; [contradiction|].
  destruct l1 as [|b l1].
  - destruct l2 as [|c l2]; [contradiction | reflexivity].
  - change ((a :: b :: l1) ++ l2) with (a :: (b :: l1) ++ l2).
    change ((b :: l1) ++ l2) with (b :: l1 ++ l2) at 1.
    rewrite join_cons2.
    change (b :: l1 ++ l2) with ((b :: l1) ++ l2).
    rewrite IH by discriminate.
    rewrite join_cons2. now rewrite !append_assoc_str.
Qed.

Lemma helpers_nil (a l : list string) :
  Database._join a l = a ++ Database._join [] l /\
  Database._where a l = a ++ Database._where [] l /\
  Database._order a l = a ++ Database._order [] l /\
  Database._limit a l = a ++ Database._limit [] l.
Proof.
  destruct l; simpl; repeat split; try reflexivity; now rewrite app_nil_r.
Qed.

Lemma select_parts (qry : Q.t) :
  fst (Database._build_select qry)
  = PyStr.join " "
      (["SELECT"; PyStr.join "," (Selector.call (Q.selector qry))]
         ++ (["FROM"; identifier (Q.table qry)]
               ++ Database._join [] (Joiner.call (Q.joiner qry))
               ++ Database._where [] (Clauser.call (Q.clauser qry)))
         ++ (Database._order [] (Orderer.call (Q.orderer qry))
               ++ Database._limit [] (Limiter.call (Q.limiter qry)))).
Proof.
  unfold Database._build_select, Database._select, Database._from. cbn [fst].
  destruct (helpers_nil
              (Database._order
                 (Database._where
                    (Database._join
                       (["SELECT"; PyStr.join "," (Selector.call (Q.selector qry))]
                          ++ ["FROM"; identifier (Q.table qry)])
                       (Joiner.call (Q.joiner qry)))
                    (Clauser.call (Q.clauser qry)))
                 (Orderer.call (Q.orderer qry)))
              (Limiter.call (Q.limiter qry))) as (_ & _ & _ & ->).
  destruct (helpers_nil
              (Database._where
                 (Database._join
                    (["SELECT"; PyStr.join "," (Selector.call (Q.selector qry))]
                       ++ ["FROM"; identifier (Q.table qry)])
                    (Joiner.call (Q.joiner qry)))
                 (Clauser.call (Q.clauser qry)))
              (Orderer.call (Q.orderer qry))) as (_ & _ & -> & _).
  destruct (helpers_nil
              (Database._join
                 (["SELECT"; PyStr.join "," (Selector.call (Q.selector qry))]
                    ++ ["FROM"; identifier (Q.table qry)])
                 (Joiner.call (Q.joiner qry)))
              (Clauser.call (Q.clauser qry))) as (_ & -> & _).
  destruct (helpers_nil
              (["SELECT"; PyStr.join "," (Selector.call (Q.selector qry))]
                 ++ ["FROM"; identifier (Q.table qry)])
              (Joiner.call (Q.joiner qry))) as (-> & _).
  now rewrite <- !app_assoc.
Qed.

Lemma filter_parts (qry : Q.t) :
  Database._where
    (Database._join ["FROM"; identifier (Q.table qry)] (Joiner.call (Q.joiner qry)))
    (Clauser.call (Q.clauser qry))
  = ["FROM"; identifier (Q.table qry)]
      ++ Database._join [] (Joiner.call (Q.joiner qry))
      ++ Database._where [] (Clauser.call (Q.clauser qry)).
Proof.
  destruct (helpers_nil
              (Database._join ["FROM"; identifier (Q.table qry)]
                 (Joiner.call (Q.joiner qry)))
              (Clauser.call (Q.clauser qry))) as (_ & -> & _).
  destruct (helpers_nil ["FROM"; identifier (Q.table qry)]
              (Joiner.call (Q.joiner qry))) as (-> & _).
  now rewrite <- !app_assoc.
Qed.

Lemma delete_parts (qry : Q.t) :
  fst (Database._build_delete qry)
  = PyStr.join " "
      (["DELETE"]
         ++ Database._where
              (Database._join ["FROM"; identifier (Q.table qry)]
                 (Joiner.call (Q.joiner qry)))
              (Clauser.call (Q.clauser qry))).
Proof.
  unfold Database._build_delete, Database._delete, Database._from. cbn [fst].
  rewrite filter_parts.
  destruct (helpers_nil
              (Database._join (["DELETE"] ++ ["FROM"; identifier (Q.table qry)])
                 (Joiner.call (Q.joiner qry)))
              (Clauser.call (Q.clauser qry))) as (_ & -> & _).
  destruct (helpers_nil (["DELETE"] ++ ["FROM"; identifier (Q.table qry)])
              (Joiner.call (Q.joiner qry))) as (-> & _).
  now rewrite <- !app_assoc.
Qed.

(** X9.  For one builder, the delete statement and the select
    statement have the same text from FROM to the end of the WHERE clause
    and bind the same parameters: delete is DELETE followed by that text,
    select is SELECT and the column list followed by that text and then
    the ORDER BY and LIMIT parts, if any. *)
Theorem delete_and_select_share_filter (qry : Q.t) :
  exists filter suffix,
    Database.assemble qry "delete"
      = inr (("DELETE " ++ filter)%string, Clauser.params (Q.clauser qry)) /\
    Database.assemble qry "select"
      = inr (("SELECT " ++ PyStr.join "," (Selector.call (Q.selector qry))
                ++ " " ++ filter ++ suffix)%string,
             Clauser.params (Q.clauser qry)) /\
    filter = PyStr.join " "
               (Database._where
                  (Database._join ["FROM"; identifier (Q.table qry)]
                     (Joiner.call (Q.joiner qry)))
                  (Clauser.call (Q.clauser qry))) /\
    (Orderer.call (Q.orderer qry) = [] -> Limiter.call (Q.limiter qry) = [] ->
     suffix = "").
Proof.
  pose proof (delete_parts qry) as Hdel.
  pose proof (select_parts qry) as Hsel.
  rewrite <- filter_parts in Hsel.
  set (T := Database._where
              (Database._join ["FROM"; identifier (Q.table qry)]
                 (Joiner.call (Q.joiner qry)))
              (Clauser.call (Q.clauser qry))) in *.
  set (OL := Database._order [] (Orderer.call (Q.orderer qry))
               ++ Database._limit [] (Limiter.call (Q.limiter qry))) in *.
  assert (HT : T <> []) by (subst T; rewrite filter_parts; discriminate).
  exists (PyStr.join " " T),
    (match OL with [] => "" | _ => (" " ++ PyStr.join " " OL)%string end).
  rewrite join_app in Hdel by (assumption || discriminate).
  assert (Hsel' : fst (Database._build_select qry)
                  = ("SELECT " ++ PyStr.join "," (Selector.call (Q.selector qry))
                       ++ " " ++ PyStr.join " " T
                       ++ match OL with
                          | [] => ""
                          | _ => (" " ++ PyStr.join " " OL)%string
                          end)%string).
  { rewrite Hsel. destruct OL as [|o OL'].
    - rewrite app_nil_r, append_empty_r.
      rewrite join_app by (assumption || discriminate).
      cbn [PyStr.join String.concat]. now rewrite !append_assoc_str.
    - rewrite join_app by (discriminate || (destruct T; discriminate)).
      rewrite join_app by (assumption || discriminate).
      cbn [PyStr.join String.concat]. now rewrite !append_assoc_str. }
  split; [|split; [|split]].
  - change (Database.assemble qry "delete")
      with (@inr exn _ (Database._build_delete qry)).
    rewrite (surjective_pairing (Database._build_delete qry)), Hdel.
    reflexivity.
  - change (Database.assemble qry "select")
      with (@inr exn _ (Database._build_select qry)).
    rewrite (surjective_pairing (Database._build_select qry)), Hsel'.
    reflexivity.
  - reflexivity.
  - intros Ho Hl. subst OL. rewrite Ho, Hl. reflexivity.
Qed.

Lemma delete_and_select_share_filter_witness :
  exists filter suffix,
    Database.assemble
      (Q.where_ (Q.init (mkTableClass "users" "id")) "age > ?" (One (PInt 18)) false)
      "delete"
      = inr (("DELETE " ++ filter)%string, [PInt 18]) /\
    Database.assemble
      (Q.where_ (Q.init (mkTableClass "users" "id")) "age > ?" (One (PInt 18)) false)
      "select"
      = inr (("SELECT " ++ "*" ++ " " ++ filter ++ suffix)%string, [PInt 18]) /\
    filter = "FROM users WHERE age > ?" /\
    suffix = "".
Proof.
  destruct (delete_and_select_share_filter
              (Q.where_ (Q.init (mkTableClass "users" "id")) "age > ?"
                        (One (PInt 18)) false))
    as (filter & suffix & H1 & H2 & H3 & H4).
  exists filter, suffix.
  repeat split; try assumption.
  apply H4; reflexivity.
Defined.

(** X10.  What each statement depends on.  The insert statement is
    determined by the name of the table and the Setter; delete by the
    table, the joins and the clauses; update by these and the Setter;
    select by everything but the Setter. *)
Theorem statement_footprints (q1 q2 : Q.t) :
  (name (Q.table q1) = name (Q.table q2) -> Q.setter q1 = Q.setter q2 ->
   Database.assemble q1 "insert" = Database.assemble q2 "insert") /\
  (Q.table q1 = Q.table q2 -> Q.joiner q1 = Q.joiner q2 ->
   Q.clauser q1 = Q.clauser q2 ->
   Database.assemble q1 "delete" = Database.assemble q2 "delete") /\
  (Q.table q1 = Q.table q2 -> Q.joiner q1 = Q.joiner q2 ->
   Q.clauser q1 = Q.clauser q2 -> Q.setter q1 = Q.setter q2 ->
   Database.assemble q1 "update" = Database.assemble q2 "update") /\
  (Q.table q1 = Q.table q2 -> Q.selector q1 = Q.selector q2 ->
   Q.joiner q1 = Q.joiner q2 -> Q.clauser q1 = Q.clauser q2 ->
   Q.orderer q1 = Q.orderer q2 -> Q.limiter q1 = Q.limiter q2 ->
   Database.assemble q1 "select" = Database.assemble q2 "select").
Proof.
  repeat split.
  - intros Hn Hs.
    change (Database.assemble q1 "insert")
      with (@inr exn _ (Database._build_insert q1)).
    change (Database.assemble q2 "insert")
      with (@inr exn _ (Database._build_insert q2)).
    now rewrite !build_insert_eq, Hn, Hs.
  - intros Ht Hj Hc.
    change (Database.assemble q1 "delete")
      with (@inr exn _ (Database._build_delete q1)).
    change (Database.assemble q2 "delete")
      with (@inr exn _ (Database._build_delete q2)).
    unfold Database._build_delete. now rewrite Ht, Hj, Hc.
  - intros Ht Hj Hc Hs.
    change (Database.assemble q1 "update")
      with (@inr exn _ (Database._build_update q1)).
    change (Database.assemble q2 "update")
      with (@inr exn _ (Database._build_update q2)).
    unfold Database._build_update. now rewrite Ht, Hj, Hc, Hs.
  - intros Ht Hs Hj Hc Ho Hl.
    change (Database.assemble q1 "select")
      with (@inr exn _ (Database._build_select q1)).
    change (Database.assemble q2 "select")
      with (@inr exn _ (Database._build_select q2)).
    unfold Database._build_select. now rewrite Ht, Hs, Hj, Hc, Ho, Hl.
Qed.

Lemma statement_footprints_witness :
  Database.assemble
    (built (mkTableClass "users" "id")
       [CallSet "name" (PStr "Bob"); CallWhere "id = ?" (One (PInt 5)) false;
        CallOrder (One "name")])
    "insert"
  = Database.assemble
      (built (mkTableClass "users" "id") [CallSet "name" (PStr "Bob")])
      "insert".
Proof.
  apply (statement_footprints
           (built (mkTableClass "users" "id")
              [CallSet "name" (PStr "Bob"); CallWhere "id = ?" (One (PInt 5)) false;
               CallOrder (One "name")])
           (built (mkTableClass "users" "id") [CallSet "name" (PStr "Bob")]));
    reflexivity.
Defined.

(** ** Q.key *)

Lemma fold_calls_no_filter (calls : list call) (q : Q.t) :
  forallb (fun c => negb (touches_filter c)) calls = true ->
  Q.clauser (fold_left apply_call calls q) = Q.clauser q /\
  Q.joiner (fold_left apply_call calls q) = Q.joiner q.
Proof.
  revert q. induction calls as [|c calls IH]; intros q H; simpl; [now split|].
  simpl in H. apply andb_true_iff in H. destruct H as [Hc Hrest].
  destruct (IH (apply_call q c) Hrest) as [-> ->].
  destruct c; simpl in *; try discriminate; now split.
Qed.

(** X11.  On a builder that has no join and no clause yet, [key(val)]
    followed by [delete] executes DELETE FROM the table WHERE its primary
    key = ?, bound to [val]; on a builder that already has a clause, the
    key clause is added after an AND. *)
Theorem key_then_delete (tbl : TableClass) (calls : list call) (val : arg pyval) :
  forallb (fun c => negb (touches_filter c)) calls = true ->
  Q_delete (Q.key (built tbl calls) val)
    = inr (("DELETE FROM " ++ cls_name tbl ++ " WHERE " ++ cls_pk tbl ++ " = ?")%string,
           to_list val) /\
  (forall clause params is_or,
     Q_delete (Q.key (Q.where_ (built tbl calls) clause params is_or) val)
     = inr (("DELETE FROM " ++ cls_name tbl ++ " WHERE " ++ clause ++ " AND "
               ++ cls_pk tbl ++ " = ?")%string,
            to_list params ++ to_list val)).
Proof.
  intros H.
  destruct (fold_calls_no_filter calls (Q.init tbl) H) as [Hc Hj].
  fold (built tbl calls) in Hc, Hj.
  destruct (table_of_built tbl calls) as [Ht Hi].
  unfold Q_delete, Q_assemble.
  split; [|intros clause params is_or].
  - change (Database.assemble (Q.key (built tbl calls) val) "delete")
      with (@inr exn _ (Database._build_delete (Q.key (built tbl calls) val))).
    unfold Database._build_delete, Q.key, Q.where_. cbn [Q.table Q.joiner Q.clauser].
    rewrite Hc, Hj, Ht. cbn. unfold identifier. cbn.
    rewrite !append_empty_r. reflexivity.
  - change (Database.assemble
              (Q.key (Q.where_ (built tbl calls) clause params is_or) val) "delete")
      with (@inr exn _ (Database._build_delete
              (Q.key (Q.where_ (built tbl calls) clause params is_or) val))).
    unfold Database._build_delete, Q.key, Q.where_. cbn [Q.table Q.joiner Q.clauser].
    rewrite Hc, Hj, Ht. cbn. unfold identifier. cbn.
    rewrite !append_empty_r. reflexivity.
Qed.

Lemma key_then_delete_witness :
  Q_delete (Q.key (built (mkTableClass "users" "id")
                     [CallSelect (One "name") None; CallLimit (One 1%Z)])
                  (One (PInt 7)))
  = inr ("DELETE FROM users WHERE id = ?", [PInt 7]).
Proof.
  exact (proj1 (key_then_delete (mkTableClass "users" "id")
                  [CallSelect (One "name") None; CallLimit (One 1%Z)]
                  (One (PInt 7)) eq_refl)).
Defined.

(** ** Table.identifier, all cases *)

(** X12.  [identifier] is the name alone for the empty alias, the name
    followed by one space for an alias of white space only, and otherwise
    the name immediately followed by the alias stripped of the white space
    around it. *)
Theorem identifier_cases (t : Table) :
  identifier t
  = (name t ++ match alias t with
               | EmptyString => ""
               | _ => match PyStr.strip (alias t) with
                      | EmptyString => " "
                      | s => s
                      end
               end)%string.
Proof.
  unfold identifier. destruct (alias t) as [|c a]; [reflexivity|].
  cbn [PyStr.truthy]. now destruct (PyStr.strip (String c a)).
Qed.

(** ** The store: which list an assembly returns *)

Section StoreAliasing.
Import Store.

Lemma nth_error_update_eq (h : store) (r : ref) (o o0 : obj) :
  nth_error h r = Some o0 -> nth_error (update h r o) r = Some o.
Proof.
  revert r. induction h as [|o' h IH]; intros [|r]; simpl; try discriminate.
  - reflexivity.
  - apply IH.
Qed.

Lemma nth_error_update_ne (h : store) (r r' : ref) (o : obj) :
  r <> r' -> nth_error (update h r o) r' = nth_error h r'.
Proof.
  revert r r'. induction h as [|o' h IH]; intros [|r] [|r'] H; simpl;
    try reflexivity; try congruence.
  apply IH. congruence.
Qed.

Lemma extend_strs_at (h : store) (r : ref) (l0 l : list string) :
  nth_error h r = Some (StrList l0) ->
  extend_strs r l h = Some (tt, update h r (StrList (l0 ++ l))).
Proof. intros H. unfold extend_strs. now rewrite H. Qed.

Lemma extend_vals_at (h : store) (r : ref) (l0 l : list pyval) :
  nth_error h r = Some (ValList l0) ->
  extend_vals r l h = Some (tt, update h r (ValList (l0 ++ l))).
Proof. intros H. unfold extend_vals. now rewrite H. Qed.

(** [Clauser.add] on the store: both lists of the Clauser grow in place
    and no other object changes. *)
Lemma clauser_add_run (h : store) (qry : Q) (cl : list string) (P : list pyval)
      (clause : string) (ps : arg pyval) (is_or : bool) :
  read_strs h (clauses qry) = Some cl ->
  read_vals h (params qry) = Some P ->
  exists h2,
    Store_Clauser_add qry clause ps is_or h = Some (tt, h2) /\
    read_vals h2 (params qry) = Some (P ++ to_list ps) /\
    read_strs h2 (clauses qry)
      = Some (Clauser.clauses (Clauser.add (Clauser.mk cl P) clause ps is_or)) /\
    (forall r, r <> clauses qry -> r <> params qry ->
               nth_error h2 r = nth_error h r).
Proof.
  intros Hc Hp.
  pose proof (read_strs_inv _ _ _ Hc) as Nc.
  pose proof (read_vals_inv _ _ _ Hp) as Np.
  assert (Hne : clauses qry <> params qry) by (intros E; rewrite E in Nc; congruence).
  unfold Store_Clauser_add.
  assert (Hg : get_strs (clauses qry) h = Some (cl, h))
    by (unfold get_strs; now rewrite Nc).
  rewrite (bind_run _ _ _ _ _ Hg).
  set (cl1 := match cl with
              | [] => cl
              | _ => cl ++ [if is_or then "OR" else "AND"]
              end).
  assert (Hstep : exists h1,
            (match cl with
             | [] => ret tt
             | _ => extend_strs (clauses qry) [if is_or then "OR" else "AND"]
             end) h = Some (tt, h1) /\
            nth_error h1 (clauses qry) = Some (StrList cl1) /\
            forall r, r <> clauses qry -> nth_error h1 r = nth_error h r).
  { subst cl1. destruct cl as [|c0 cl'].
    - exists h. repeat split. exact Nc.
    - eexists. split; [apply extend_strs_at; exact Nc|]. split.
      + eapply nth_error_update_eq; exact Nc.
      + intros r Hr. apply nth_error_update_ne. congruence. }
  destruct Hstep as (h1 & Hrun1 & Nc1 & Hother1).
  rewrite (bind_run _ _ _ _ _ Hrun1).
  rewrite (bind_run _ _ _ _ _ (extend_strs_at h1 _ _ [clause] Nc1)).
  assert (Np2 : nth_error (update h1 (clauses qry) (StrList (cl1 ++ [clause])))
                          (params qry) = Some (ValList P)).
  { rewrite nth_error_update_ne by exact Hne.
    rewrite Hother1 by congruence. exact Np. }
  rewrite (extend_vals_at _ _ _ (to_list ps) Np2).
  eexists. split; [reflexivity|]. split; [|split].
  - unfold read_vals. now erewrite nth_error_update_eq by exact Np2.
  - unfold read_strs. rewrite nth_error_update_ne by congruence.
    erewrite nth_error_update_eq by exact Nc1.
    subst cl1. unfold Clauser.add. simpl. now destruct cl.
  - intros r Hrc Hrp.
    rewrite nth_error_update_ne by congruence.
    rewrite nth_error_update_ne by congruence.
    apply Hother1. exact Hrc.
Qed.

Variables (h : store) (qry : Q) (qv : Q.t).
Hypothesis Hcontents : contents h qry = Some qv.

Lemma build_select_returns_params :
  exists sql junk,
    Store._build_select qry h = Some ((sql, params qry), h ++ junk).
Proof.
  destruct (contents_inv _ _ _ Hcontents)
    as (Ht & Hc & Hj & Hcl & Hp & Ho & Hl & Hi).
  unfold Store._build_select.
  destruct (Selector.cols (Q.selector qv)) as [|c0 cs] eqn:Ecols;
    do 2 eexists; apply run_nil.
  - run_step selector_call_run_empty.
    run_step select_run_fresh.
    run_step from_run. run_step join_run. run_step where_run.
    run_step order_run. run_step limit_run.
    run_step get_strs_fresh.
    reflexivity.
  - run_step selector_call_run_cols.
    run_step select_run_old.
    run_step from_run. run_step join_run. run_step where_run.
    run_step order_run. run_step limit_run.
    run_step get_strs_fresh.
    reflexivity.
Qed.

Lemma build_delete_returns_params :
  exists sql junk,
    Store._build_delete qry h = Some ((sql, params qry), h ++ junk).
Proof.
  destruct (contents_inv _ _ _ Hcontents)
    as (Ht & Hc & Hj & Hcl & Hp & Ho & Hl & Hi).
  unfold Store._build_delete, Store._delete.
  do 2 eexists. apply run_nil.
  run_step new_run.
  run_step from_run. run_step join_run. run_step where_run.
  run_step get_strs_fresh.
  reflexivity.
Qed.

Lemma build_insert_returns_new :
  exists sql junk,
    Store._build_insert qry h = Some ((sql, length h + 3), h ++ junk).
Proof.
  destruct (contents_inv _ _ _ Hcontents)
    as (Ht & Hc & Hj & Hcl & Hp & Ho & Hl & Hi).
  destruct (dict_items_old h [StrList []; StrList []; ValList []] _ _ Hi)
    as [d [Hd Hits]].
  unfold Store._build_insert.
  do 2 eexists. apply run_nil.
  run_step new_run. run_step new_run. run_step new_run.
  rewrite (bind_run _ _ _ _ _ Hd).
  rewrite (bind_run _ _ _ _ _ (insert_loop_run h d _ _ _ _ Hits)).
  cbn [app].
  run_step list_null_run_fresh.
  run_step insert_run.
  run_step values_run.
  run_step get_strs_fresh.
  reflexivity.
Qed.

Lemma build_update_returns_new :
  exists sql junk,
    Store._build_update qry h = Some ((sql, length h + 4), h ++ junk).
Proof.
  destruct (contents_inv _ _ _ Hcontents)
    as (Ht & Hc & Hj & Hcl & Hp & Ho & Hl & Hi).
  destruct (dict_items_old h [StrList []; ValList []] _ _ Hi)
    as [d [Hd Hits]].
  unfold Store._build_update, Store._update.
  do 2 eexists. apply run_nil.
  run_step new_run. run_step new_run.
  rewrite (bind_run _ _ _ _ _ Hd).
  rewrite (bind_run _ _ _ _ _ (update_loop_run h d _ _ _ Hits)).
  cbn [app].
  run_step new_run.
  run_step set_run. run_step join_run. run_step where_run.
  run_step list_null_run_old.
  run_step get_strs_fresh. run_step get_vals_fresh. run_step get_vals_fresh.
  run_step new_run.
  reflexivity.
Qed.

End StoreAliasing.

(** X13.  In select and delete mode the parameter list that the
    assembly returns is the Clauser's own list, not a copy: a [where] call
    made after the assembly makes the list returned before longer. *)
Theorem select_returns_the_clauser_list
        (h : Store.store) (qry : Store.Q) (qv : Q.t) (mode clause : string)
        (ps : arg pyval) (is_or : bool) :
  Store.contents h qry = Some qv ->
  mode = "select" \/ mode = "delete" ->
  exists sql h1 h2,
    Store.assemble qry mode h = Some (inr (sql, Store.params qry), h1) /\
    Store.read_vals h1 (Store.params qry) = Some (Clauser.params (Q.clauser qv)) /\
    Store_Clauser_add qry clause ps is_or h1 = Some (tt, h2) /\
    Store.read_vals h2 (Store.params qry)
      = Some (Clauser.params (Q.clauser qv) ++ to_list ps).
Proof.
  intros Hc Hm.
  destruct (contents_inv _ _ _ Hc) as (Ht & Hco & Hj & Hcl & Hp & Ho & Hl & Hi).
  assert (Hrun : exists sql junk,
            Store.assemble qry mode h
            = Some (inr (sql, Store.params qry), h ++ junk)).
  { destruct Hm as [-> | ->].
    - destruct (build_select_returns_params h qry qv Hc) as (sql & junk & Hrun).
      exists sql, junk.
      change (Store.assemble qry "select" h)
        with (Store.bind (Store._build_select qry)
                (fun r => Store.ret (@inr exn Store.result r)) h).
      now rewrite (bind_run _ _ _ _ _ Hrun).
    - destruct (build_delete_returns_params h qry qv Hc) as (sql & junk & Hrun).
      exists sql, junk.
      change (Store.assemble qry "delete" h)
        with (Store.bind (Store._build_delete qry)
                (fun r => Store.ret (@inr exn Store.result r)) h).
      now rewrite (bind_run _ _ _ _ _ Hrun). }
  destruct Hrun as (sql & junk & Hrun).
  pose proof (read_strs_preserved _ _ _ _ (preserved_app h junk) Hcl) as Hcl1.
  pose proof (read_vals_preserved _ _ _ _ (preserved_app h junk) Hp) as Hp1.
  destruct (clauser_add_run (h ++ junk) qry _ _ clause ps is_or Hcl1 Hp1)
    as (h2 & Hadd & Hread & _).
  exists sql, (h ++ junk), h2. repeat split; assumption.
Qed.

Lemma select_returns_the_clauser_list_witness :
  exists sql h1 h2,
    Store.assemble example_builder "select" example_store
      = Some (inr (sql, 3), h1) /\
    Store.read_vals h1 3 = Some [PInt 18] /\
    Store_Clauser_add example_builder "id = ?" (One (PInt 5)) false h1
      = Some (tt, h2) /\
    Store.read_vals h2 3 = Some ([PInt 18] ++ [PInt 5]).
Proof.
  exact (select_returns_the_clauser_list
           example_store example_builder
           (Q.mk (mkTable "users" "id" "") (Selector.mk ["id"; "name"])
                 (Joiner.mk []) (Clauser.mk ["age > ?"] [PInt 18])
                 (Orderer.mk ["name"]) (Limiter.mk ["10"])
                 (Setter.mk [("email", Expr.mk "?" [PStr ""])]))
           "select" "id = ?" (One (PInt 5)) false eq_refl (or_introl eq_refl)).
Defined.

(** X14.  In insert and update mode the assembly returns a list that
    was not in the store before, and a [where] call made after the
    assembly leaves that list as it was. *)
Theorem insert_returns_a_new_list
        (h : Store.store) (qry : Store.Q) (qv : Q.t) (mode clause : string)
        (ps : arg pyval) (is_or : bool) :
  Store.contents h qry = Some qv ->
  mode = "insert" \/ mode = "update" ->
  exists sql p params h1 h2,
    Store.assemble qry mode h = Some (inr (sql, p), h1) /\
    nth_error h p = None /\
    Store.read_vals h1 p = Some params /\
    Store_Clauser_add qry clause ps is_or h1 = Some (tt, h2) /\
    Store.read_vals h2 p = Some params.
Proof.
  intros Hc Hm.
  destruct (contents_inv _ _ _ Hc) as (Ht & Hco & Hj & Hcl & Hp & Ho & Hl & Hi).
  assert (Hrun : exists sql k junk,
            Store.assemble qry mode h
            = Some (inr (sql, length h + k), h ++ junk)).
  { destruct Hm as [-> | ->].
    - destruct (build_insert_returns_new h qry qv Hc) as (sql & junk & Hrun).
      exists sql, 3, junk.
      change (Store.assemble qry "insert" h)
        with (Store.bind (Store._build_insert qry)
                (fun r => Store.ret (@inr exn Store.result r)) h).
      now rewrite (bind_run _ _ _ _ _ Hrun).
    - destruct (build_update_returns_new h qry qv Hc) as (sql & junk & Hrun).
      exists sql, 4, junk.
      change (Store.assemble qry "update" h)
        with (Store.bind (Store._build_update qry)
                (fun r => Store.ret (@inr exn Store.result r)) h).
      now rewrite (bind_run _ _ _ _ _ Hrun). }
  destruct Hrun as (sql & k & junk & Hrun).
  destruct (assemble_run h qry qv mode Hc) as (sql' & params & p' & h' & Hrun' & _ & Hread & _).
  { simpl. destruct Hm as [-> | ->]; tauto. }
  rewrite Hrun in Hrun'. injection Hrun' as <- <- <-.
  pose proof (read_strs_preserved _ _ _ _ (preserved_app h junk) Hcl) as Hcl1.
  pose proof (read_vals_preserved _ _ _ _ (preserved_app h junk) Hp) as Hp1.
  destruct (clauser_add_run (h ++ junk) qry _ _ clause ps is_or Hcl1 Hp1)
    as (h2 & Hadd & _ & _ & Hother).
  assert (Hfresh : nth_error h (length h + k) = None)
    by (apply nth_error_None; lia).
  assert (Hlt1 : Store.clauses qry < length h)
    by (apply nth_error_Some; rewrite (read_strs_inv _ _ _ Hcl); discriminate).
  assert (Hlt2 : Store.params qry < length h)
    by (apply nth_error_Some; rewrite (read_vals_inv _ _ _ Hp); discriminate).
  exists sql, (length h + k), params, (h ++ junk), h2.
  repeat split; try assumption.
  unfold Store.read_vals in *. rewrite Hother by lia. exact Hread.
Qed.

Lemma insert_returns_a_new_list_witness :
  exists sql p params h1 h2,
    Store.assemble example_builder "update" example_store
      = Some (inr (sql, p), h1) /\
    nth_error example_store p = None /\
    Store.read_vals h1 p = Some params /\
    Store_Clauser_add example_builder "id = ?" (One (PInt 5)) false h1
      = Some (tt, h2) /\
    Store.read_vals h2 p = Some params.
Proof.
  exact (insert_returns_a_new_list
           example_store example_builder
           (Q.mk (mkTable "users" "id" "") (Selector.mk ["id"; "name"])
                 (Joiner.mk []) (Clauser.mk ["age > ?"] [PInt 18])
                 (Orderer.mk ["name"]) (Limiter.mk ["10"])
                 (Setter.mk [("email", Expr.mk "?" [PStr ""])]))
           "update" "id = ?" (One (PInt 5)) false eq_refl (or_intror eq_refl)).
Defined.

(** ** The row factory *)

Lemma dict_factory_loop_spec (row0 : list pyval) (description : list string) :
  forall (idx : nat) (d0 d : Gateway.row),
    Gateway.dict_factory_loop description idx row0 d0 = Some d ->
    forall c : string,
      (~ In c description -> Dict_get d c = Dict_get d0 c) /\
      (forall i, nth_error description i = Some c ->
                 (forall j, i < j -> nth_error description j <> Some c) ->
                 Dict_get d c = nth_error row0 (idx + i)).
Proof.
  induction description as [|col rest IH]; intros idx d0 d H c; simpl in H.
  - injection H as <-. split; [reflexivity|]. intros [|i]; discriminate.
  - destruct (nth_error row0 idx) as [v|] eqn:Hv; [|discriminate].
    destruct (IH _ _ _ H c) as [IH1 IH2]. split.
    + intros Hnin. rewrite IH1 by (intros Hin; apply Hnin; now right).
      apply Dict_get_set_other. intros E. apply Hnin. now left.
    + intros [|i] Hi Hlast.
      * simpl in Hi. injection Hi as ->.
        rewrite IH1.
        -- rewrite Dict_get_set_same, Nat.add_0_r. now symmetry.
        -- intros Hin. apply In_nth_error in Hin. destruct Hin as [j Hj].
           apply (Hlast (S j)); [lia | exact Hj].
      * simpl in Hi. rewrite (IH2 i Hi).
        -- f_equal. lia.
        -- intros j Hj. apply (Hlast (S j)). lia.
Qed.

Lemma dict_factory_loop_runs (row0 : list pyval) (description : list string) :
  forall (idx : nat) (d0 : Gateway.row),
    idx + length description <= length row0 ->
    exists d, Gateway.dict_factory_loop description idx row0 d0 = Some d.
Proof.
  induction description as [|col rest IH]; intros idx d0 H; simpl.
  - now exists d0.
  - simpl in H. destruct (nth_error row0 idx) as [v|] eqn:Hv.
    + apply IH. lia.
    + apply nth_error_None in Hv. lia.
Qed.

Lemma dict_factory_loop_fails (row0 : list pyval) (description : list string) :
  forall (idx : nat) (d0 : Gateway.row),
    idx <= length row0 ->
    length row0 < idx + length description ->
    Gateway.dict_factory_loop description idx row0 d0 = None.
Proof.
  induction description as [|col rest IH]; intros idx d0 Hle H; simpl in *.
  - lia.
  - destruct (nth_error row0 idx) as [v|] eqn:Hv; [|reflexivity].
    assert (idx < length row0) by (apply nth_error_Some; congruence).
    apply IH; lia.
Qed.

(** X15.  [_dict_factory] fails (the [IndexError] of [row[idx]])
    exactly when the row is shorter than the description.  Otherwise it
    gives a row in which every column name is bound to the value at the
    position of its last occurrence in the description: with distinct
    names, each name to its own value; with a repeated name, the later
    column hides the earlier one. *)
Theorem dict_factory_binds_columns (description : list string)
        (row0 : list pyval) :
  (Gateway._dict_factory description row0 = None
   <-> length row0 < length description) /\
  (forall d, Gateway._dict_factory description row0 = Some d ->
     forall i c, nth_error description i = Some c ->
       (forall j, i < j -> nth_error description j <> Some c) ->
       Dict_get d c = nth_error row0 i) /\
  (forall d, Gateway._dict_factory description row0 = Some d ->
     forall c, ~ In c description -> Dict_get d c = None).
Proof.
  unfold Gateway._dict_factory. split; [|split].
  - split.
    + intros H. destruct (le_lt_dec (length description) (length row0)) as [L|L];
        [|exact L].
      destruct (dict_factory_loop_runs row0 description 0 Dict.empty L) as [d Hd].
      congruence.
    + intros H. apply dict_factory_loop_fails; [lia | exact H].
  - intros d Hd i c Hi Hlast.
    destruct (dict_factory_loop_spec row0 description 0 _ _ Hd c) as [_ H2].
    now apply H2.
  - intros d Hd c Hnin.
    destruct (dict_factory_loop_spec row0 description 0 _ _ Hd c) as [H1 _].
    now rewrite H1.
Qed.

Lemma dict_factory_binds_columns_witness :
  Gateway._dict_factory ["id"; "name"; "id"] [PInt 1; PStr "Bob"; PInt 2]
    = Some [("id", PInt 2); ("name", PStr "Bob")] /\
  Dict_get [("id", PInt 2); ("name", PStr "Bob")] "id"
    = nth_error [PInt 1; PStr "Bob"; PInt 2] 2.
Proof.
  split; [reflexivity|].
  refine (proj1 (proj2 (dict_factory_binds_columns
                          ["id"; "name"; "id"] [PInt 1; PStr "Bob"; PInt 2]))
                [("id", PInt 2); ("name", PStr "Bob")] eq_refl 2 "id" eq_refl _).
  intros [|[|[|[|j]]]] Hj; simpl; try lia; discriminate.
Defined.

(** ** Database.query *)

Section Query.
Import Gateway.

Lemma connect_ok (self : t) (a : answers) :
  _con self = true \/ _db_driver self = true ->
  connect_raises a = None -> cursor_raises a = None ->
  _connect self a
  = (inr tt, mk (_dsn self) true (_db_driver self), opening self).
Proof.
  intros Hd Hc Hcur. unfold _connect, opening.
  destruct self as [dsn con drv]. simpl in *.
  destruct con; simpl.
  - now rewrite Hcur.
  - destruct Hd as [Hd|Hd]; [discriminate|]. subst drv.
    now rewrite Hc, Hcur.
Qed.

(** X16.  When no call of the driver raises, [query] executes the
    statement, fetches according to the fetch mode, commits and closes the
    cursor, in this order and without rollback; it returns the rows of
    [fetchall] for the mode [all], the row or the [None] of [fetchone]
    for the mode [one], and the empty list for any other mode. *)
Theorem query_success (self : t) (query0 : string) (params : list pyval)
        (fetch_mode : option string) (a : answers)
        (rows : list row) (r : option row) :
  _con self = true \/ _db_driver self = true ->
  connect_raises a = None -> cursor_raises a = None ->
  execute_raises a = None ->
  fetchall_returns a = inr rows -> fetchone_returns a = inr r ->
  commit_raises a = None -> close_raises a = None ->
  query self query0 params fetch_mode a
  = (inr (if mode_is fetch_mode "all" then ResultList rows
          else if mode_is fetch_mode "one"
               then match r with Some x => ResultRow x | None => ResultNone end
               else ResultList []),
     mk (_dsn self) true (_db_driver self),
     opening self ++ [Execute query0 params]
       ++ (if mode_is fetch_mode "all" then [FetchAll] else [])
       ++ (if mode_is fetch_mode "one" then [FetchOne] else [])
       ++ [Commit; CloseCursor]).
Proof.
  intros Hd Hc Hcur He Hfa Hfo Hco Hcl.
  unfold query. rewrite (connect_ok self a Hd Hc Hcur).
  unfold try_body, commit. cbn [_con].
  rewrite He, Hfa, Hfo, Hco, Hcl.
  destruct fetch_mode as [m|]; cbn [mode_is].
  - destruct (String.eqb_spec m "all") as [E|E].
    + subst m. cbn. repeat rewrite <- app_assoc. reflexivity.
    + destruct (String.eqb m "one"); destruct r; cbn;
        repeat rewrite <- app_assoc; reflexivity.
  - cbn. repeat rewrite <- app_assoc. reflexivity.
Qed.

Lemma query_success_witness :
  fst (fst (query (SQLite_init "app.db" true) "SELECT * FROM users" []
                  (Some "all")
                  (mkAnswers None None None (inr [[("id", PInt 1)]]) (inr None)
                             None None None)))
  = inr (ResultList [[("id", PInt 1)]]).
Proof.
  rewrite (query_success (SQLite_init "app.db" true) "SELECT * FROM users" []
             (Some "all")
             (mkAnswers None None None (inr [[("id", PInt 1)]]) (inr None)
                        None None None)
             [[("id", PInt 1)]] None
             (or_intror eq_refl) eq_refl eq_refl eq_refl eq_refl eq_refl
             eq_refl eq_refl).
  reflexivity.
Defined.

(** X17.  When [execute] raises, [query] does not raise: it writes
    [ERROR: <message>] and a newline to the standard error, rolls back,
    closes the cursor and returns the empty list, whatever the fetch
    mode; nothing is fetched and nothing is committed. *)
Theorem query_execute_failure (self : t) (query0 : string) (params : list pyval)
        (fetch_mode : option string) (a : answers) (msg : string) :
  _con self = true \/ _db_driver self = true ->
  connect_raises a = None -> cursor_raises a = None ->
  execute_raises a = Some msg ->
  rollback_raises a = None -> close_raises a = None ->
  query self query0 params fetch_mode a
  = (inr (ResultList []),
     mk (_dsn self) true (_db_driver self),
     opening self ++ [Execute query0 params;
                      Stderr ("ERROR: " ++ msg ++ newline)%string;
                      Rollback; CloseCursor]).
Proof.
  intros Hd Hc Hcur He Hr Hcl.
  unfold query. rewrite (connect_ok self a Hd Hc Hcur).
  unfold try_body, rollback. cbn [_con].
  rewrite He, Hr, Hcl. reflexivity.
Qed.

Lemma query_execute_failure_witness :
  fst (fst (query (SQLite_init "app.db" true) "SELECT * FROM nowhere" []
                  (Some "all")
                  (mkAnswers None None (Some "no such table: nowhere")
                             (inr []) (inr None) None None None)))
  = inr (ResultList []).
Proof.
  rewrite (query_execute_failure (SQLite_init "app.db" true)
             "SELECT * FROM nowhere" [] (Some "all")
             (mkAnswers None None (Some "no such table: nowhere")
                        (inr []) (inr None) None None None)
             "no such table: nowhere"
             (or_intror eq_refl) eq_refl eq_refl eq_refl eq_refl eq_refl).
  reflexivity.
Defined.

(** X18.  When [commit] raises after [fetchall] has returned, [query]
    rolls back and still returns the rows fetched: a statement that was
    not committed can give a non-empty result. *)
Theorem query_commit_failure_keeps_rows (self : t) (query0 : string)
        (params : list pyval) (a : answers) (rows : list row) (msg : string) :
  _con self = true \/ _db_driver self = true ->
  connect_raises a = None -> cursor_raises a = None ->
  execute_raises a = None -> fetchall_returns a = inr rows ->
  commit_raises a = Some msg ->
  rollback_raises a = None -> close_raises a = None ->
  query self query0 params (Some "all") a
  = (inr (ResultList rows),
     mk (_dsn self) true (_db_driver self),
     opening self ++ [Execute query0 params; FetchAll; Commit;
                      Stderr ("ERROR: " ++ msg ++ newline)%string;
                      Rollback; CloseCursor]).
Proof.
  intros Hd Hc Hcur He Hfa Hco Hr Hcl.
  unfold query. rewrite (connect_ok self a Hd Hc Hcur).
  unfold try_body, commit, rollback. cbn [_con mode_is].
  rewrite He, Hfa, Hco, Hr, Hcl. reflexivity.
Qed.

Lemma query_commit_failure_keeps_rows_witness :
  fst (fst (query (SQLite_init "app.db" true) "SELECT * FROM users" []
                  (Some "all")
                  (mkAnswers None None None (inr [[("id", PInt 1)]]) (inr None)
                             (Some "database is locked") None None)))
  = inr (ResultList [[("id", PInt 1)]]).
Proof.
  rewrite (query_commit_failure_keeps_rows (SQLite_init "app.db" true)
             "SELECT * FROM users" []
             (mkAnswers None None None (inr [[("id", PInt 1)]]) (inr None)
                        (Some "database is locked") None None)
             [[("id", PInt 1)]] "database is locked"
             (or_intror eq_refl) eq_refl eq_refl eq_refl eq_refl eq_refl
             eq_refl eq_refl).
  reflexivity.
Defined.

(** The value of [query] without fetch mode, when opening and cleaning
    up raise nothing. *)
Lemma query_no_fetch (self : t) (query0 : string) (params : list pyval)
      (a : answers) :
  _con self = true \/ _db_driver self = true ->
  cleanup_succeeds a ->
  fst (query self query0 params None a)
  = (inr (ResultList []), mk (_dsn self) true (_db_driver self)).
Proof.
  intros Hd (Hc & Hcur & Hr & Hcl).
  unfold query. rewrite (connect_ok self a Hd Hc Hcur).
  unfold try_body, commit, rollback. cbn [_con mode_is].
  destruct (execute_raises a); [now rewrite Hr, Hcl|].
  destruct (commit_raises a); cbn; now rewrite ?Hr, Hcl.
Qed.

(** X19.  [insert], [update] and [delete] return the empty list both
    when the statement was executed and committed and when it failed and
    was rolled back: their value does not tell the two apart. *)
Theorem statements_return_empty_list (db : t) (self : Q.t) (vals : Dict.t pyval)
        (a : answers) :
  _con db = true \/ _db_driver db = true ->
  cleanup_succeeds a ->
  (exists ev, Q_insert_run db self vals a
              = inr (inr (ResultList []), mk (_dsn db) true (_db_driver db), ev)) /\
  (exists ev, Q_update_run db self vals a
              = inr (inr (ResultList []), mk (_dsn db) true (_db_driver db), ev)) /\
  (exists ev, Q_delete_run db self a
              = inr (inr (ResultList []), mk (_dsn db) true (_db_driver db), ev)).
Proof.
  intros Hd Hc.
  assert (G : forall sql params,
             exists ev, execute db sql params None a
                        = (inr (ResultList []), mk (_dsn db) true (_db_driver db), ev)).
  { intros sql params. unfold execute.
    pose proof (query_no_fetch db sql params a Hd Hc) as H.
    destruct (query db sql params None a) as [[r s] ev]. simpl in H.
    injection H as -> ->. now exists ev. }
  unfold Q_insert_run, Q_update_run, Q_delete_run, Q_insert, Q_update, Q_delete,
    Q_assemble.
  cbn [snd].
  repeat split.
  - change (Database.assemble (Q.set_all self vals) "insert")
      with (@inr exn _ (Database._build_insert (Q.set_all self vals))).
    destruct (Database._build_insert (Q.set_all self vals)) as [sql params].
    destruct (G sql params) as [ev ->]. now exists ev.
  - change (Database.assemble (Q.set_all self vals) "update")
      with (@inr exn _ (Database._build_update (Q.set_all self vals))).
    destruct (Database._build_update (Q.set_all self vals)) as [sql params].
    destruct (G sql params) as [ev ->]. now exists ev.
  - change (Database.assemble self "delete")
      with (@inr exn _ (Database._build_delete self)).
    destruct (Database._build_delete self) as [sql params].
    destruct (G sql params) as [ev ->]. now exists ev.
Qed.

Lemma statements_return_empty_list_witness :
  exists ev,
    Q_delete_run (SQLite_init "app.db" true)
      (Q.key (Q.init (mkTableClass "users" "id")) (One (PInt 7)))
      (mkAnswers None None (Some "no such table: users") (inr []) (inr None)
                 None None None)
    = inr (inr (ResultList []), mk "app.db" true true, ev).
Proof.
  refine (proj2 (proj2 (statements_return_empty_list
            (SQLite_init "app.db" true)
            (Q.key (Q.init (mkTableClass "users" "id")) (One (PInt 7)))
            []
            (mkAnswers None None (Some "no such table: users") (inr []) (inr None)
                       None None None)
            (or_intror eq_refl) _))).
  repeat split.
Defined.

(** X20.  Without a driver (a plain [Database], or an [SQLite] made
    when [sqlite3] cannot be imported) and without a connection, [query]
    raises the [AttributeError] of [None.connect] before any call of a
    driver, and so do [fetch], [fetch_one], [insert], [update] and
    [delete] after assembling their statement. *)
Theorem query_without_driver (dsn : string) (self : Q.t) (vals : Dict.t pyval)
        (a : answers) :
  (forall query0 params fetch_mode,
     query (init dsn) query0 params fetch_mode a
     = (inl (NoneHasNoAttribute "connect"), init dsn, [])) /\
  SQLite_init dsn false = init dsn /\
  Q_fetch_run (init dsn) self a
    = inr (inl (NoneHasNoAttribute "connect"), init dsn, []) /\
  Q_fetch_one_run (init dsn) self a
    = inr (inl (NoneHasNoAttribute "connect"), init dsn, []) /\
  Q_insert_run (init dsn) self vals a
    = inr (inl (NoneHasNoAttribute "connect"), init dsn, []) /\
  Q_update_run (init dsn) self vals a
    = inr (inl (NoneHasNoAttribute "connect"), init dsn, []) /\
  Q_delete_run (init dsn) self a
    = inr (inl (NoneHasNoAttribute "connect"), init dsn, []).
Proof.
  assert (G : forall query0 params fetch_mode,
             query (init dsn) query0 params fetch_mode a
             = (inl (NoneHasNoAttribute "connect"), init dsn, []))
    by reflexivity.
  split; [exact G|]. split; [reflexivity|].
  unfold Q_fetch_run, Q_fetch_one_run, Q_insert_run, Q_update_run, Q_delete_run,
    Q_fetch, Q_insert, Q_update, Q_delete, Q_assemble, execute.
  cbn [snd].
  change (Database.assemble self "select")
    with (@inr exn _ (Database._build_select self)).
  change (Database.assemble self "delete")
    with (@inr exn _ (Database._build_delete self)).
  change (Database.assemble (Q.set_all self vals) "insert")
    with (@inr exn _ (Database._build_insert (Q.set_all self vals))).
  change (Database.assemble (Q.set_all self vals) "update")
    with (@inr exn _ (Database._build_update (Q.set_all self vals))).
  destruct (Database._build_select self), (Database._build_delete self),
    (Database._build_insert (Q.set_all self vals)),
    (Database._build_update (Q.set_all self vals)).
  rewrite !G. repeat split.
Qed.

Lemma run_op_invariant (st : t * list event) (o : op) :
  connect_returns o ->
  (connects (snd st) <= 1 /\ (_con (fst st) = false -> connects (snd st) = 0)) ->
  connects (snd (run_op st o)) <= 1 /\
  (_con (fst (run_op st o)) = false -> connects (snd (run_op st o)) = 0).
Proof.
  destruct st as [self ev]. cbn [fst snd]. intros Ho [Hle Hz].
  destruct o as [q p m a | r]; cbn [run_op fst snd connect_returns] in *.
  - unfold query, _connect.
    destruct self as [dsn con drv]. cbn [_con _db_driver _dsn] in *.
    destruct con.
    + destruct (cursor_raises a); cbn [raise_or].
      * cbn [fst snd]. unfold connects in *.
        rewrite filter_app, length_app. cbn. split; [lia | discriminate].
      * destruct (try_body _ q p m a) as [[err res] ev1] eqn:Et.
        assert (Hn : connects ev1 = 0).
        { unfold try_body, commit in Et. cbn [_con] in Et.
          destruct (execute_raises a); [injection Et as <- <- <-; reflexivity|].
          destruct (mode_is m "all"), (mode_is m "one"),
            (fetchall_returns a), (fetchone_returns a) as [|[|]],
            (commit_raises a); cbn in Et; injection Et as <- <- <-; reflexivity. }
        destruct err as [e|].
        -- unfold rollback. cbn [_con].
           destruct (rollback_raises a); cbn [raise_or fst snd];
             unfold connects in *;
             rewrite ?filter_app, ?length_app; cbn;
             rewrite ?filter_app, ?length_app, ?Hn; cbn;
             (split; [lia | discriminate]).
        -- cbn [fst snd]. unfold connects in *.
           rewrite ?filter_app, ?length_app, ?Hn. cbn.
           split; [lia | discriminate].
    + specialize (Hz eq_refl). destruct drv.
      * rewrite Ho.
        destruct (cursor_raises a); cbn [raise_or].
        -- cbn [fst snd]. unfold connects in *.
           rewrite filter_app, length_app, Hz. cbn. split; [lia | discriminate].
        -- destruct (try_body _ q p m a) as [[err res] ev1] eqn:Et.
           assert (Hn : connects ev1 = 0).
           { unfold try_body, commit in Et. cbn [_con] in Et.
             destruct (execute_raises a); [injection Et as <- <- <-; reflexivity|].
             destruct (mode_is m "all"), (mode_is m "one"),
               (fetchall_returns a), (fetchone_returns a) as [|[|]],
               (commit_raises a); cbn in Et; injection Et as <- <- <-; reflexivity. }
           destruct err as [e|].
           ++ unfold rollback. cbn [_con].
              destruct (rollback_raises a); cbn [raise_or fst snd];
                unfold connects in *;
                rewrite ?filter_app, ?length_app; cbn;
                rewrite ?filter_app, ?length_app, ?Hn, ?Hz; cbn;
                (split; [lia | discriminate]).
           ++ cbn [fst snd]. unfold connects in *.
              rewrite ?filter_app, ?length_app; cbn.
              rewrite ?filter_app, ?length_app, ?Hn, ?Hz. cbn.
              split; [lia | discriminate].
      * cbn [fst snd]. rewrite app_nil_r. split; [lia | intros _; exact Hz].
  - unfold close. destruct (_con self) eqn:Ec; cbn [fst snd].
    + unfold connects in *. rewrite filter_app, length_app. cbn.
      split; [lia|]. rewrite Ec. discriminate.
    + rewrite app_nil_r. split; [lia | intros _; now apply Hz].
Qed.

Lemma run_ops_invariant (ops : list op) :
  forall st : t * list event,
    Forall connect_returns ops ->
    (connects (snd st) <= 1 /\ (_con (fst st) = false -> connects (snd st) = 0)) ->
    connects (snd (fold_left run_op ops st)) <= 1 /\
    (_con (fst (fold_left run_op ops st)) = false ->
     connects (snd (fold_left run_op ops st)) = 0).
Proof.
  induction ops as [|o ops IH]; intros st Hall Hinv; simpl; [exact Hinv|].
  inversion Hall as [|? ? Ho Hrest]; subst.
  apply IH; [exact Hrest|]. now apply run_op_invariant.
Qed.

(** X21.  Over any sequence of queries and closes on one instance,
    the driver's [connect] is called at most once as long as it does not
    raise: the connection is opened by the first query and reused by all
    later ones, also after [close], which does not reset it. *)
Theorem connects_at_most_once (self : t) (ops : list op) :
  Forall connect_returns ops ->
  connects (snd (run_ops self ops)) <= 1.
Proof.
  intros H. unfold run_ops.
  apply (run_ops_invariant ops (self, []) H). cbn. split; [lia | reflexivity].
Qed.

Lemma connects_at_most_once_witness :
  connects
    (snd (run_ops (SQLite_init "app.db" true)
            [OpQuery "SELECT 1" [] (Some "one")
                     (mkAnswers None None None (inr []) (inr None) None None None);
             OpClose None;
             OpQuery "SELECT 2" [] None
                     (mkAnswers None (Some "closed") None (inr []) (inr None)
                                None None None)]))
  <= 1.
Proof.
  apply (connects_at_most_once (SQLite_init "app.db" true)
           [OpQuery "SELECT 1" [] (Some "one")
                    (mkAnswers None None None (inr []) (inr None) None None None);
            OpClose None;
            OpQuery "SELECT 2" [] None
                    (mkAnswers None (Some "closed") None (inr []) (inr None)
                               None None None)]).
  repeat constructor.
Defined.

End Query.
